(** * EvoLisa: a hill-climbing approximation of an image by polygons

    A shallow embedding of [evolisa.py].  NumPy arrays are lists: a
    two-dimensional [int] array is a [list (list Z)], the [(n, 4)] array of
    [uint8] colours is a list of four-tuples, a raster of shape
    [(h, w, 3)] is a list of rows of pixels.  Every call of the random
    number generator is an explicit argument (a "draw"), with a boolean
    predicate telling which values the generator can return.  Python
    exceptions are [None] in the option monad.

    The [int] arrays hold coordinates and side counts bounded by the image
    size, far from the 64-bit range, and are modelled by [Z]; the explicit
    [int32] subtraction and the 64-bit sum of the scorer and the [uint8]
    stores of the colour operators have their wrap-around written out. *)

From Stdlib Require Import ZArith QArith Qround Qminmax Lia.
From stdpp Require Import base numbers option list.

Local Open Scope Z_scope.

(** ** Fixed-width integers and NumPy primitives *)

(** Two's complement reading of [x] on [w] bits. *)
Definition wrap_signed (w x : Z) : Z := (x + 2 ^ (w - 1)) mod 2 ^ w - 2 ^ (w - 1).

Definition int32 : Z → Z := wrap_signed 32.
Definition int64 : Z → Z := wrap_signed 64.

(** Storing an integer in a [uint8] array keeps its low eight bits. *)
Definition uint8 (x : Z) : Z := x mod 256.

(** [np.clip(a, lo, hi)] is [minimum(maximum(a, lo), hi)]. *)
Definition clip (a lo hi : Z) : Z := Z.min (Z.max a lo) hi.

(** [int(x)] on a float: truncation towards zero.  The floats of the
    program are halves of integers, which the rationals represent exactly. *)
Definition trunc (x : Q) : Z := if Qle_bool 0 x then Qfloor x else Qceiling x.

(** [randint(low, high)] converts its bounds with [int] and returns an
    integer of [[int(low), int(high))]; [randint_in low high v] tells that
    [v] is such a value. *)
Definition randint_in (low high : Q) (v : Z) : bool :=
  (trunc low <=? v) && (v <? trunc high).

(** [np.tile(l, n)] *)
Definition tile {A} (l : list A) (n : Z) : list A := mjoin (replicate (Z.to_nat n) l).

(** Element-wise operation on two one-dimensional arrays, with NumPy's
    broadcasting: equal lengths, or one operand of length one. *)
Definition broadcast (f : Z → Z → Z) (a b : list Z) : option (list Z) :=
  if decide (length a = length b) then Some (zip_with f a b)
  else match a, b with
       | [x], _ => Some (map (f x) b)
       | _, [y] => Some (map (λ x, f x y) a)
       | _, _ => None
       end.

(** [row[...] = value], a whole row assigned: the value has the row's
    length or is broadcast from length one. *)
Definition assign_row (row value : list Z) : option (list Z) :=
  if decide (length value = length row) then Some value
  else match value with
       | [v] => Some (replicate (length row) v)
       | _ => None
       end.

(** [l[:stop]], with Python's reading of a negative bound. *)
Definition py_until {A} (stop : Z) (l : list A) : list A :=
  if stop <? 0 then take (length l - Z.to_nat (- stop)) l else take (Z.to_nat stop) l.

(** [l[::2]] *)
Fixpoint evens {A} (l : list A) : list A :=
  match l with
  | x :: _ :: t => x :: evens t
  | _ => l
  end.

(** [l[start:stop:2]] for bounds that are not negative. *)
Definition slice2 {A} (start stop : nat) (l : list A) : list A :=
  evens (drop start (take stop l)).

(** Writes [vals] over the positions 0, 2, 4, ... of [l], as far as [vals] goes. *)
Fixpoint put_evens {A} (vals l : list A) : list A :=
  match vals, l with
  | v :: vs, _ :: y :: t => v :: y :: put_evens vs t
  | v :: _, [_] => [v]
  | _, _ => l
  end.

(** [l[start:stop:2] = vals]: the lengths have to agree. *)
Definition set_slice2 {A} (start stop : nat) (vals l : list A) : option (list A) :=
  if decide (length vals = length (slice2 start stop l))
  then Some (take start l ++ put_evens vals (drop start l))
  else None.

(** [a[idx]] with an integer array as index: one lookup per entry, an
    [IndexError] when one is out of range. *)
Definition fancy {A} (a : list A) (idx : list nat) : option (list A) :=
  mapM (λ i, a !! i) idx.

(** ** Data model *)

(** One row of [colors]: the channels R, G, B, A. *)
Definition rgba : Type := Z * Z * Z * Z.

(** The polygon set: [shapes], [points] (the side counts), [colors]. *)
Definition polygons : Type := list (list Z) * list Z * list rgba.

(** A pixel of an RGB raster, and a raster of shape [(h, w, 3)]. *)
Definition pixel : Type := Z * Z * Z.
Definition raster : Type := list (list pixel).

Definition white : pixel := (255, 255, 255).

(** [image.shape[0]] and [image.shape[1]] *)
Definition shape0 (image : raster) : Z := Z.of_nat (length image).
Definition shape1 (image : raster) : Z := Z.of_nat (length (default [] (head image))).

(** A raster is rectangular, [h] rows of [w] pixels. *)
Definition has_shape (h w : nat) (image : raster) : Prop :=
  length image = h ∧ Forall (λ row, length row = w) image.

Definition byte (v : Z) : Prop := 0 ≤ v ≤ 255.

Definition byte_pixel (p : pixel) : Prop := byte p.1.1 ∧ byte p.1.2 ∧ byte p.2.

Definition byte_raster (image : raster) : Prop := Forall (Forall byte_pixel) image.

(** ** Scorer *)

(** The channel differences [a - b], pixel by pixel. *)
Definition subtract (a b : raster) : list Z :=
  mjoin (zip_with (λ p q : pixel, [p.1.1 - q.1.1; p.1.2 - q.1.2; p.2 - q.2])
                  (mjoin a) (mjoin b)).

Definition sum (l : list Z) : Z := foldr Z.add 0 l.

(** [error_abs(a, b)]: the subtraction is done in [int32], [np.abs] stays
    in [int32], and [sum] accumulates in 64 bits.  The program compares
    two arrays of one shape [(h, w, 3)], and the properties below are
    stated for rasters of one shape.  For different shapes NumPy broadcasts
    a dimension of length one and raises [ValueError] otherwise; the model
    does not tell the two apart and answers [None] for both. *)
Definition error_abs (a b : raster) : option Z :=
  if decide (map length a = map length b)
  then Some (int64 (sum (map (λ d, int32 (Z.abs (int32 d))) (subtract a b))))
  else None.

(** [error_percent(error, image)], the float arithmetic done on rationals. *)
Definition error_percent (error : Z) (image : raster) : Q :=
  (inject_Z error / inject_Z (shape0 image * shape1 image * 255 * 3) * 100)%Q.

(** ** Initialization *)

(** [row[0::2] = xs; row[1::2] = ys] on an empty row. *)
Definition interleave (xs ys : list Z) : list Z :=
  mjoin (zip_with (λ x y, [x; y]) xs ys).

(** What [randint(0, high, size=(rows, cols))] can return. *)
Definition randint_array (high : Z) (rows cols : nat) (a : list (list Z)) : bool :=
  bool_decide (length a = rows) &&
  forallb (λ row, bool_decide (length row = cols) &&
                  forallb (randint_in 0 (inject_Z high)) row) a.

(** What [randint(0, 256, size=(rows, 4), dtype=uint8)] can return. *)
Definition randint_colors (rows : nat) (a : list rgba) : bool :=
  bool_decide (length a = rows) &&
  forallb (λ c : rgba, forallb (randint_in 0 256) [c.1.1.1; c.1.1.2; c.1.2; c.2]) a.

(** [initialize]; [xs], [ys] and [cs] are the three arrays drawn by
    [randint].  [np.empty] raises [ValueError] on a negative dimension and
    [randint] when its range is empty. *)
Definition initialize (n_shapes : nat) (min_points max_points width height : Z)
    (xs ys : list (list Z)) (cs : list rgba) : option polygons :=
  if (0 <=? max_points) && (0 <? width) && (0 <? height) then
    let shapes := zip_with interleave xs ys in
    let points := replicate n_shapes min_points in
    let colors := cs in
    Some (shapes, points, colors)
  else None.

(** ** Arrays as objects

    The operators receive references to arrays and mutate arrays in
    place.  The store lists the arrays ever allocated; a reference is a
    position in it. *)

Inductive ndarray : Type :=
  | Ints2 (a : list (list Z))
  | Ints1 (a : list Z)
  | Bytes2 (a : list rgba).

Abbreviation heap := (list ndarray).

(** The references [shapes], [points], [colors] of a polygon set. *)
Definition refs : Type := nat * nat * nat.

(** [a.copy()]: a new array with the content of [a]. *)
Definition copy (r : nat) (h : heap) : option (nat * heap) :=
  a ← h !! r;
  Some (length h, h ++ [a]).

(** The content of the three arrays of a polygon set. *)
Definition load (h : heap) (r : refs) : option polygons :=
  let '(shapes, points, colors) := r in
  match h !! shapes, h !! points, h !! colors with
  | Some (Ints2 s), Some (Ints1 p), Some (Bytes2 c) => Some (s, p, c)
  | _, _, _ => None
  end.

(** The array an operator copies before it writes. *)
Inductive container : Type := Shapes | Points | Colors.

(** An operator whose first statement copies one array and whose other
    statements write into that copy: [op] gives the content the copy ends
    with, from the content of the three arrays. *)
Definition on_copy (which : container) (op : polygons → option polygons)
    (r : refs) (h : heap) : option (refs * heap) :=
  let '(shapes, points, colors) := r in
  match which with
  | Shapes =>
      '(shapes, h) ← copy shapes h;
      p ← load h (shapes, points, colors);
      '(s, _, _) ← op p;
      Some ((shapes, points, colors), <[shapes := Ints2 s]> h)
  | Points =>
      '(points, h) ← copy points h;
      p ← load h (shapes, points, colors);
      '(_, n, _) ← op p;
      Some ((shapes, points, colors), <[points := Ints1 n]> h)
  | Colors =>
      '(colors, h) ← copy colors h;
      p ← load h (shapes, points, colors);
      '(_, _, c) ← op p;
      Some ((shapes, points, colors), <[colors := Bytes2 c]> h)
  end.

(** ** Rasterizer *)

(** Modelled from the spec: the imaging library's painter is not part of
    the repository.  The spec has a filled polygon painted "using its RGBA
    color with alpha compositing against the canvas accumulated so far
    (standard over-compositing)": every covered pixel becomes
    [(canvas * (255 - alpha) + ink * alpha) / 255], rounded to the nearest
    integer and stored on eight bits. *)
Definition div255 (a : Z) : Z := let t := a + 128 in Z.shiftr (Z.shiftr t 8 + t) 8.

Definition blend (mask canvas ink : Z) : Z :=
  uint8 (div255 (canvas * (255 - mask) + ink * mask)).

Definition over (ink : rgba) (p : pixel) : pixel :=
  let '(r, g, b, a) := ink in
  let '(pr, pg, pb) := p in
  (blend a pr r, blend a pg g, blend a pb b).

(** [Image.new('RGB', (w, h), (255, 255, 255, 0))] *)
Definition new_image (w h : Z) : raster := replicate (Z.to_nat h) (replicate (Z.to_nat w) white).

(** ** A scan conversion to run the program with

    The even-odd rule by edge crossings, on integer arithmetic. *)

Fixpoint vertices (xy : list Z) : list (Z * Z) :=
  match xy with
  | x :: y :: t => (x, y) :: vertices t
  | _ => []
  end.

Definition edges (vs : list (Z * Z)) : list ((Z * Z) * (Z * Z)) := zip vs (rotate 1 vs).

Definition crosses (px py : Z) (e : (Z * Z) * (Z * Z)) : bool :=
  let '((x1, y1), (x2, y2)) := e in
  negb (eqb (y1 <=? py) (y2 <=? py)) &&
  (if y1 <? y2
   then (px - x1) * (y2 - y1) <? (x2 - x1) * (py - y1)
   else (x2 - x1) * (py - y1) <? (px - x1) * (y2 - y1)).

Definition even_odd (xy : list Z) (px py : Z) : bool :=
  Nat.odd (length (filter (λ e, Is_true (crosses px py e)) (edges (vertices xy)))).

(** No resampling: the thumbnail is only used by the final rendering. *)
Definition keep_size (w h : Z) (image : raster) : raster := image.
Section Rasterizer.

(** The library's scan conversion: whether the filled polygon with the
    flat vertex list [xy] covers the pixel [(x, y)]. *)
Variable covers : list Z → Z → Z → bool.

(** The library's [thumbnail], which shrinks the supersampled canvas. *)
Variable thumbnail : Z → Z → raster → raster.

(** [drawer.polygon(xy, ink)] *)
Definition polygon (xy : list Z) (ink : rgba) (image : raster) : raster :=
  imap (λ y, imap (λ x p, if covers xy (Z.of_nat x) (Z.of_nat y) then over ink p else p)) image.

(** [draw_image] is the raster the imaging library returns.  The model is
    total: the library's own exceptions (a canvas of negative size, a
    polygon of fewer than two coordinate pairs) are not modelled, and the
    properties that speak of a render that succeeds are stated for canvases
    of at least one pixel and side counts of at least 3. *)
Definition draw_image (width height : Z) (shapes : list (list Z)) (points : list Z)
    (colors : list rgba) (antialiasing : bool) : raster :=
  let scale := if antialiasing then 4 else 1 in
  let image := new_image (width * scale) (height * scale) in
  let image :=
    foldl (λ image '(shape, point, color),
             polygon (map (λ v, v * scale) (py_until (point * 2) shape)) color image)
          image (zip (zip shapes points) colors) in
  if antialiasing then thumbnail width height image else image.

(** ** Mutator and search loop: the body of [generate] *)

(** The random choices of one call of [changes]: the operator with the
    values it draws itself. *)
Inductive mutation : Type :=
  | Point (change : Z * Z) (choice : nat)
  | Shape (change : Z * Z)
  | Order (shuffle : list nat)
  | Number (choice : Z)
  | Color (change : Z * Z * Z)
  | Alpha (change : Z).

Record draw : Type := { index : nat; func : mutation }.

(** The search state: the accepted polygon set, its raster and its score. *)
Definition state : Type := polygons * raster * Z.

Definition score_of (st : state) : Z := st.2.

Section Generate.

Variables (n_shapes : nat) (min_points max_points : Z).
Variables (width height : Z) (internal : raster).

Definition point_rng : Q := Qmax (inject_Z width / 2) (inject_Z height / 2).
Definition shape_rng : Q := Qmax (inject_Z width / 2) (inject_Z height / 2).
Definition color_rng : Z := 100.
Definition alpha_rng : Z := 100.

Definition boundaries : list Z := tile [width; height] max_points.

Definition point (shapes : list (list Z)) (points : list Z) (colors : list rgba)
    (index : nat) (change : Z * Z) (choice : nat) : option polygons :=
  let point := (choice * 2)%nat in
  row ← shapes !! index;
  x ← row !! point;
  y ← row !! S point;
  let row := <[S point := clip (y + change.2) 0 height]>
             (<[point := clip (x + change.1) 0 width]> row) in
  Some (<[index := row]> shapes, points, colors).

Definition shape (shapes : list (list Z)) (points : list Z) (colors : list rgba)
    (index : nat) (change : Z * Z) : option polygons :=
  let change := tile [change.1; change.2] max_points in
  row ← shapes !! index;
  moved ← broadcast Z.add row change;
  clipped ← broadcast (λ v hi, clip v 0 hi) moved boundaries;
  row ← assign_row row clipped;
  Some (<[index := row]> shapes, points, colors).

Definition order (shapes : list (list Z)) (points : list Z) (colors : list rgba)
    (index : nat) (shuffle : list nat) : option polygons :=
  n ← points !! index;
  if n <? 0 then None else
  let stop := Z.to_nat (n * 2) in
  row ← shapes !! index;
  xs ← fancy (slice2 0 stop row) shuffle;
  row ← set_slice2 0 stop xs row;
  ys ← fancy (slice2 1 stop row) shuffle;
  row ← set_slice2 1 stop ys row;
  Some (<[index := row]> shapes, points, colors).

Definition number (shapes : list (list Z)) (points : list Z) (colors : list rgba)
    (index : nat) (choice : Z) : option polygons :=
  n ← points !! index;
  let n :=
    if n =? min_points then n + 1
    else if n =? max_points then n - 1
    else n + choice in
  Some (shapes, <[index := n]> points, colors).

Definition color (shapes : list (list Z)) (points : list Z) (colors : list rgba)
    (index : nat) (change : Z * Z * Z) : option polygons :=
  '(r, g, b, a) ← colors !! index;
  let '(dr, dg, db) := change in
  let c := (uint8 (clip (r + dr) 0 256), uint8 (clip (g + dg) 0 256),
            uint8 (clip (b + db) 0 256), a) in
  Some (shapes, points, <[index := c]> colors).

(** NumPy 1.x promotion: the [uint8] scalar plus the Python integer is
    computed in 64 bits, and the clipped value is cast when it is stored. *)
Definition alpha (shapes : list (list Z)) (points : list Z) (colors : list rgba)
    (index : nat) (change : Z) : option polygons :=
  '(r, g, b, a) ← colors !! index;
  let c := (r, g, b, uint8 (clip (a + change) 0 256)) in
  Some (shapes, points, <[index := c]> colors).

Definition changes (shapes : list (list Z)) (points : list Z) (colors : list rgba)
    (d : draw) : option polygons :=
  match func d with
  | Point change choice => point shapes points colors (index d) change choice
  | Shape change => shape shapes points colors (index d) change
  | Order shuffle => order shapes points colors (index d) shuffle
  | Number choice => number shapes points colors (index d) choice
  | Color change => color shapes points colors (index d) change
  | Alpha change => alpha shapes points colors (index d) change
  end.

(** The draws the generator can produce in [changes] on a polygon set with
    the side counts [points]: [randint(n_shapes)] for the index, and for
    each operator its own calls. *)
Definition drawn (points : list Z) (d : draw) : bool :=
  bool_decide (index d < n_shapes)%nat &&
  match func d with
  | Point (dx, dy) choice =>
      randint_in (- point_rng) (point_rng + 1) dx &&
      randint_in (- point_rng) (point_rng + 1) dy &&
      bool_decide (Z.of_nat choice < max_points)
  | Shape (dx, dy) =>
      randint_in (- shape_rng) (shape_rng + 1) dx &&
      randint_in (- shape_rng) (shape_rng + 1) dy
  | Order shuffle =>
      match points !! index d with
      | Some n => bool_decide (0 ≤ n) && bool_decide (shuffle ≡ₚ seq 0 (Z.to_nat n))
      | None => false
      end
  | Number choice => bool_decide (choice = 1 ∨ choice = -1)
  | Color (dr, dg, db) =>
      forallb (randint_in (- inject_Z color_rng) (inject_Z (color_rng + 1))) [dr; dg; db]
  | Alpha da => randint_in (- inject_Z alpha_rng) (inject_Z (alpha_rng + 1)) da
  end.

(** The operators on references: what each one copies, and the writes
    of its body done on the copy. *)
Definition point_ref (r : refs) (index : nat) (change : Z * Z) (choice : nat) :=
  on_copy Shapes (λ '(s, p, c), point s p c index change choice) r.

Definition shape_ref (r : refs) (index : nat) (change : Z * Z) :=
  on_copy Shapes (λ '(s, p, c), shape s p c index change) r.

Definition order_ref (r : refs) (index : nat) (shuffle : list nat) :=
  on_copy Shapes (λ '(s, p, c), order s p c index shuffle) r.

Definition number_ref (r : refs) (index : nat) (choice : Z) :=
  on_copy Points (λ '(s, p, c), number s p c index choice) r.

Definition color_ref (r : refs) (index : nat) (change : Z * Z * Z) :=
  on_copy Colors (λ '(s, p, c), color s p c index change) r.

Definition alpha_ref (r : refs) (index : nat) (change : Z) :=
  on_copy Colors (λ '(s, p, c), alpha s p c index change) r.

Definition changes_ref (r : refs) (d : draw) : heap → option (refs * heap) :=
  match func d with
  | Point change choice => point_ref r (index d) change choice
  | Shape change => shape_ref r (index d) change
  | Order shuffle => order_ref r (index d) shuffle
  | Number choice => number_ref r (index d) choice
  | Color change => color_ref r (index d) change
  | Alpha change => alpha_ref r (index d) change
  end.

Definition iterate (st : state) (d : draw) : option state :=
  let '(shapes, points, colors, image, score) := st in
  '(new_shapes, new_points, new_colors) ← changes shapes points colors d;
  let new_image := draw_image width height new_shapes new_points new_colors false in
  new_score ← error_abs internal new_image;
  if new_score <=? score
  then Some (new_shapes, new_points, new_colors, new_image, new_score)
  else Some (shapes, points, colors, image, score).

(** The state [generate] starts the loop from. *)
Definition start (p : polygons) : option state :=
  let '(shapes, points, colors) := p in
  let image := draw_image width height shapes points colors false in
  score ← error_abs internal image;
  Some (shapes, points, colors, image, score).

(** The loop of [generate], one iteration per draw: it ends when the draws
    do (the interrupt) or at the first exception, and the state it holds
    then is the one rendered as the result. *)
Fixpoint run (draws : list draw) (st : state) : state :=
  match draws with
  | [] => st
  | d :: draws =>
      match iterate st d with
      | Some st => run draws st
      | None => st
      end
  end.

End Generate.
End Rasterizer.

(** ** Invariants of the polygon set *)

(** Even positions hold x-coordinates of [[0, width]], odd positions
    y-coordinates of [[0, height]]. *)
Definition coordinates_within (width height : Z) (row : list Z) : Prop :=
  ∀ i v, row !! i = Some v → 0 ≤ v ≤ if Nat.even i then width else height.

Definition byte_color (c : rgba) : Prop :=
  byte c.1.1.1 ∧ byte c.1.1.2 ∧ byte c.1.2 ∧ byte c.2.

(** The data model's invariant: [n_shapes] polygons of [max_points] stored
    pairs inside the canvas, side counts between the bounds, colour
    channels on eight bits. *)
Definition clamped (n_shapes : nat) (min_points max_points width height : Z)
    (p : polygons) : Prop :=
  let '(shapes, points, colors) := p in
  length shapes = n_shapes ∧ length points = n_shapes ∧ length colors = n_shapes ∧
  Forall (λ row, length row = (Z.to_nat max_points * 2)%nat ∧
                 coordinates_within width height row) shapes ∧
  Forall (λ n, min_points ≤ n ≤ max_points) points ∧
  Forall byte_color colors.

(** The polygon sets the search can hold: the initial one, and any one
    the mutator makes of a reachable one with a draw of the generator. *)
Inductive reachable (n_shapes : nat) (min_points max_points width height : Z) :
    polygons → Prop :=
  | reachable_initial xs ys cs p :
      randint_array width n_shapes (Z.to_nat max_points) xs = true →
      randint_array height n_shapes (Z.to_nat max_points) ys = true →
      randint_colors n_shapes cs = true →
      initialize n_shapes min_points max_points width height xs ys cs = Some p →
      reachable n_shapes min_points max_points width height p
  | reachable_changes shapes points colors d p :
      reachable n_shapes min_points max_points width height (shapes, points, colors) →
      drawn n_shapes max_points width height points d = true →
      changes min_points max_points width height shapes points colors d = Some p →
      reachable n_shapes min_points max_points width height p.

(** A search state is coherent when it holds the render of its own polygon
    set and the score of that render. *)
Definition coherent (covers : list Z → Z → Z → bool) (thumbnail : Z → Z → raster → raster)
    (width height : Z) (internal : raster) (st : state) : Prop :=
  let '(shapes, points, colors, image, score) := st in
  image = draw_image covers thumbnail width height shapes points colors false ∧
  error_abs internal image = Some score.

(** * Properties *)

(** ** Arithmetic of the primitives *)

Lemma int32_small x : -2147483648 ≤ x < 2147483648 → int32 x = x.
Proof.
  intros Hx. unfold int32, wrap_signed.
  change (2 ^ (32 - 1)) with 2147483648. change (2 ^ 32) with 4294967296.
  rewrite Z.mod_small by lia. lia.
Qed.

Lemma int64_small x : -9223372036854775808 ≤ x < 9223372036854775808 → int64 x = x.
Proof.
  intros Hx. unfold int64, wrap_signed.
  change (2 ^ (64 - 1)) with 9223372036854775808.
  change (2 ^ 64) with 18446744073709551616.
  rewrite Z.mod_small by lia. lia.
Qed.

Lemma uint8_byte x : byte (uint8 x).
Proof. unfold byte, uint8. pose proof (Z.mod_pos_bound x 256). lia. Qed.

Lemma uint8_small x : byte x → uint8 x = x.
Proof. unfold byte, uint8. intros. apply Z.mod_small. lia. Qed.

Lemma clip_bounds a lo hi : lo ≤ hi → lo ≤ clip a lo hi ≤ hi.
Proof. unfold clip. lia. Qed.

Lemma clip_inside a lo hi : lo ≤ a ≤ hi → clip a lo hi = a.
Proof. unfold clip. lia. Qed.

(** The colour operators clip to 256 and store on eight bits: a sum of 256
    or more is stored as 0. *)
Lemma uint8_clip_256 v : uint8 (clip v 0 256) = if 256 <=? v then 0 else clip v 0 255.
Proof.
  unfold uint8, clip. destruct (Z.leb_spec 256 v).
  - replace (Z.min (Z.max v 0) 256) with 256 by lia. reflexivity.
  - replace (Z.min (Z.max v 0) 256) with (Z.min (Z.max v 0) 255) by lia.
    apply Z.mod_small. lia.
Qed.

Lemma trunc_inject z : trunc (inject_Z z) = z.
Proof. unfold trunc. destruct (Qle_bool 0 (inject_Z z)); [apply Qfloor_Z | apply Qceiling_Z]. Qed.

Lemma randint_in_0 high v : randint_in 0 (inject_Z high) v = true ↔ 0 ≤ v < high.
Proof.
  unfold randint_in. rewrite trunc_inject. change (trunc 0) with 0.
  rewrite andb_true_iff, Z.leb_le, Z.ltb_lt. reflexivity.
Qed.

Lemma randint_in_Z low high v :
  randint_in (- inject_Z low) (inject_Z high) v = true ↔ - low ≤ v < high.
Proof.
  unfold randint_in. change (- inject_Z low)%Q with (inject_Z (- low)).
  rewrite !trunc_inject, andb_true_iff, Z.leb_le, Z.ltb_lt. reflexivity.
Qed.

Lemma half_max width height :
  Qmax (inject_Z width / 2) (inject_Z height / 2) = (inject_Z (Z.max width height) / 2)%Q.
Proof.
  unfold Qmax, GenericMinMax.gmax.
  destruct (inject_Z width / 2 ?= inject_Z height / 2)%Q eqn:E;
    unfold Qcompare in E; cbn in E.
  - apply Z.compare_eq in E. f_equal. f_equal. lia.
  - rewrite Z.compare_lt_iff in E. f_equal. f_equal. lia.
  - rewrite Z.compare_gt_iff in E. f_equal. f_equal. lia.
Qed.

Lemma trunc_half_up m : 0 ≤ m → trunc (inject_Z m / 2 + 1) = m / 2 + 1.
Proof.
  intros Hm. unfold trunc.
  assert (Qfloor (inject_Z m / 2 + 1) = m / 2 + 1) as Hf.
  { cbn. rewrite <- (Z.div_add _ 1 2) by lia. f_equal. lia. }
  destruct (Qle_bool 0 (inject_Z m / 2 + 1)) eqn:E; [exact Hf |].
  exfalso. apply not_true_iff_false in E. apply E. apply Qle_bool_iff.
  unfold Qle. cbn. lia.
Qed.

Lemma trunc_half_down m : 0 ≤ m → trunc (- (inject_Z m / 2)) = - (m / 2).
Proof.
  intros Hm. unfold trunc.
  destruct (Qle_bool 0 (- (inject_Z m / 2))) eqn:E.
  - apply Qle_bool_iff in E. unfold Qle in E. cbn in E.
    assert (m = 0) as -> by lia. reflexivity.
  - unfold Qceiling. cbn. f_equal. f_equal. lia.
Qed.

(** The offsets [randint(-point_rng, point_rng + 1)] can return are the
    integers of magnitude at most [max(width, height) / 2]. *)
Lemma randint_in_rng width height v :
  0 ≤ width → 0 ≤ height →
  randint_in (- point_rng width height) (point_rng width height + 1) v = true ↔
  - (Z.max width height / 2) ≤ v ≤ Z.max width height / 2.
Proof.
  intros Hw Hh. unfold randint_in, point_rng. rewrite half_max.
  rewrite trunc_half_up, trunc_half_down by lia.
  rewrite andb_true_iff, Z.leb_le, Z.ltb_lt. lia.
Qed.

(** ** The [number] operator *)

Lemma number_result (min_points max_points : Z)
    (shapes : list (list Z)) (points : list Z) (colors : list rgba)
    (index : nat) (n choice : Z) :
  points !! index = Some n →
  number min_points max_points shapes points colors index choice
  = Some (shapes,
          <[index := if n =? min_points then n + 1
                     else if n =? max_points then n - 1 else n + choice]> points,
          colors).
Proof. intros Hn. unfold number. rewrite Hn. reflexivity. Qed.

(** C5, as amended: between bounds that differ ([min_points < max_points]),
    [number] applied at [sides[i] = min_points] increases the count by
    exactly 1, applied at [sides[i] = max_points] decreases it by exactly 1,
    and otherwise adds the drawn +1 or -1; the new count stays within the
    bounds, [shapes] and [colors] are returned as they are and no other
    side count changes. *)
Theorem number_forced_at_bounds (min_points max_points : Z)
    (shapes : list (list Z)) (points : list Z) (colors : list rgba)
    (index : nat) (n choice : Z) :
  min_points < max_points →
  points !! index = Some n →
  min_points ≤ n ≤ max_points →
  choice = 1 ∨ choice = -1 →
  ∃ n', number min_points max_points shapes points colors index choice
          = Some (shapes, <[index := n']> points, colors)
      ∧ (n = min_points → n' = n + 1)
      ∧ (n = max_points → n' = n - 1)
      ∧ (min_points < n < max_points → n' = n + choice)
      ∧ (n' = n + 1 ∨ n' = n - 1)
      ∧ min_points ≤ n' ≤ max_points
      ∧ ∀ j, j ≠ index → <[index := n']> points !! j = points !! j.
Proof.
  intros Hlt Hn Hrange Hchoice. unfold number. rewrite Hn. cbn.
  destruct (Z.eqb_spec n min_points) as [Hmin | Hmin].
  - eexists. split; [reflexivity |].
    repeat split; try lia. intros j Hj. apply list_lookup_insert_ne. congruence.
  - destruct (Z.eqb_spec n max_points) as [Hmax | Hmax].
    + eexists. split; [reflexivity |].
      repeat split; try lia. intros j Hj. apply list_lookup_insert_ne. congruence.
    + eexists. split; [reflexivity |].
      repeat split; try lia. intros j Hj. apply list_lookup_insert_ne. congruence.
Qed.

Lemma number_forced_at_bounds_witness :
  ∃ n', number 3 5 [[1; 1; 4; 1; 1; 4; 0; 0; 0; 0]] [5] [(9, 9, 9, 9)] 0 1
          = Some ([[1; 1; 4; 1; 1; 4; 0; 0; 0; 0]], <[0%nat := n']> [5], [(9, 9, 9, 9)])
      ∧ (5 = 3 → n' = 5 + 1)
      ∧ (5 = 5 → n' = 5 - 1)
      ∧ (3 < 5 < 5 → n' = 5 + 1)
      ∧ (n' = 5 + 1 ∨ n' = 5 - 1)
      ∧ 3 ≤ n' ≤ 5
      ∧ ∀ j, j ≠ 0%nat → <[0%nat := n']> [5] !! j = [5] !! j.
Proof.
  apply (number_forced_at_bounds 3 5 _ [5] _ 0%nat 5 1); [lia | reflexivity | lia | lia].
Defined.

(** C5, as stated, at [min_points = max_points = 3]: the side count 3 is
    [max_points], and [number] answers 4 where the claim has [3 - 1]. *)
Lemma number_at_equal_bounds_increases :
  [3] !! 0%nat = Some 3 ∧ 3 ≤ 3 ≤ 3 ∧
  number 3 3 [[1; 1; 4; 1; 1; 4]] [3] [(9, 9, 9, 9)] 0 1
    = Some ([[1; 1; 4; 1; 1; 4]], [4], [(9, 9, 9, 9)]) ∧
  number 3 3 [[1; 1; 4; 1; 1; 4]] [3] [(9, 9, 9, 9)] 0 1
    ≠ Some ([[1; 1; 4; 1; 1; 4]], [3 - 1], [(9, 9, 9, 9)]).
Proof. repeat split; try lia. discriminate. Qed.

(** ** The colour operators *)

Lemma color_channels (shapes : list (list Z)) (points : list Z) (colors : list rgba)
    (index : nat) (r g b a dr dg db : Z) :
  colors !! index = Some (r, g, b, a) →
  color shapes points colors index (dr, dg, db)
    = Some (shapes, points,
            <[index := (if 256 <=? r + dr then 0 else clip (r + dr) 0 255,
                        if 256 <=? g + dg then 0 else clip (g + dg) 0 255,
                        if 256 <=? b + db then 0 else clip (b + db) 0 255, a)]> colors).
Proof. intros H. unfold color. rewrite H. cbn. rewrite !uint8_clip_256. reflexivity. Qed.

Lemma alpha_channel (shapes : list (list Z)) (points : list Z) (colors : list rgba)
    (index : nat) (r g b a da : Z) :
  colors !! index = Some (r, g, b, a) →
  alpha shapes points colors index da
    = Some (shapes, points,
            <[index := (r, g, b, if 256 <=? a + da then 0 else clip (a + da) 0 255)]> colors).
Proof. intros H. unfold alpha. rewrite H. cbn. rewrite uint8_clip_256. reflexivity. Qed.

(** C4 at the failing input: offsets the generator can draw, a red channel
    of 200 plus 56 and an alpha of 255 plus 1, both sums 256, are stored
    as 0, where the clamp to [[0, 255]] is 255. *)
Lemma color_sum_256_stored_as_0 :
  drawn 1 3 10 10 [3] {| index := 0; func := Color (56, 0, 0) |} = true ∧
  color [[1; 1; 4; 1; 1; 4]] [3] [(200, 7, 7, 255)] 0 (56, 0, 0)
    = Some ([[1; 1; 4; 1; 1; 4]], [3], [(0, 7, 7, 255)]) ∧
  clip (200 + 56) 0 255 = 255 ∧
  drawn 1 3 10 10 [3] {| index := 0; func := Alpha 1 |} = true ∧
  alpha [[1; 1; 4; 1; 1; 4]] [3] [(200, 7, 7, 255)] 0 1
    = Some ([[1; 1; 4; 1; 1; 4]], [3], [(200, 7, 7, 0)]) ∧
  clip (255 + 1) 0 255 = 255.
Proof. repeat split; vm_compute; reflexivity. Qed.

(** ** Initialization *)

Lemma randint_array_spec high rows cols a :
  randint_array high rows cols a = true →
  length a = rows ∧
  Forall (λ row, length row = cols ∧ Forall (λ v, 0 ≤ v ≤ high - 1) row) a.
Proof.
  unfold randint_array. rewrite andb_true_iff, bool_decide_eq_true.
  intros [Hlen Hall]. split; [exact Hlen |]. clear Hlen.
  induction a as [| row a IH]; [constructor |].
  cbn in Hall. rewrite !andb_true_iff, bool_decide_eq_true in Hall.
  destruct Hall as [[Hrow Hvals] Hrest]. constructor; [| auto].
  split; [exact Hrow |]. clear -Hvals.
  induction row as [| v row IH]; [constructor |].
  cbn in Hvals. rewrite andb_true_iff, randint_in_0 in Hvals.
  constructor; [lia | tauto].
Qed.

Lemma randint_colors_spec rows a :
  randint_colors rows a = true → length a = rows ∧ Forall byte_color a.
Proof.
  unfold randint_colors. rewrite andb_true_iff, bool_decide_eq_true.
  intros [Hlen Hall]. split; [exact Hlen |]. clear Hlen.
  induction a as [| c a IH]; [constructor |].
  cbn in Hall. rewrite !andb_true_iff in Hall.
  change 256%Q with (inject_Z 256) in Hall. rewrite !randint_in_0 in Hall.
  constructor; [| tauto]. unfold byte_color, byte. lia.
Qed.

Lemma interleave_length xs ys :
  length xs = length ys → length (interleave xs ys) = (length xs * 2)%nat.
Proof.
  revert ys. induction xs as [| x xs IH]; intros [| y ys] H; try discriminate; [reflexivity |].
  cbn in *. f_equal. f_equal. apply IH. lia.
Qed.

Lemma interleave_within w h xs ys :
  Forall (λ v, 0 ≤ v ≤ w) xs → Forall (λ v, 0 ≤ v ≤ h) ys →
  coordinates_within w h (interleave xs ys).
Proof.
  intros Hx. revert ys. induction Hx as [| x xs Hx0 Hx IH]; intros ys Hy.
  - intros i v H. destruct ys; discriminate.
  - destruct Hy as [| y ys Hy0 Hy]; [intros i v H; discriminate |].
    intros [| [| i]] v H; cbn in H.
    + injection H as <-. exact Hx0.
    + injection H as <-. exact Hy0.
    + apply (IH ys Hy i v H).
Qed.

Lemma sum_replicate n v : sum (replicate n v) = Z.of_nat n * v.
Proof. induction n as [| n IH]; [reflexivity |]. cbn [replicate sum foldr] in *. unfold sum in IH. lia. Qed.

Lemma initialize_rows (max_points width height : Z) (n_shapes : nat)
    (xs ys : list (list Z)) :
  randint_array width n_shapes (Z.to_nat max_points) xs = true →
  randint_array height n_shapes (Z.to_nat max_points) ys = true →
  length (zip_with interleave xs ys) = n_shapes ∧
  Forall (λ row, length row = (Z.to_nat max_points * 2)%nat ∧
                 coordinates_within (width - 1) (height - 1) row)
         (zip_with interleave xs ys).
Proof.
  intros Hxs Hys.
  apply randint_array_spec in Hxs as [Hxl Hxs], Hys as [Hyl Hys].
  split; [rewrite length_zip_with; lia |].
  apply Forall_lookup_2. intros i row Hrow.
  apply lookup_zip_with_Some in Hrow as (x & y & -> & Hx & Hy).
  apply (Forall_lookup_1 _ _ _ _ Hxs) in Hx as [Hxlen Hx].
  apply (Forall_lookup_1 _ _ _ _ Hys) in Hy as [Hylen Hy].
  split.
  - rewrite interleave_length; lia.
  - apply interleave_within; assumption.
Qed.

(** C10, as amended: with [max_points >= 0] besides [n_shapes >= 1],
    [max_points >= min_points], [width >= 1] and [height >= 1],
    [initialize] succeeds and gives every polygon exactly [min_points]
    sides (so the mean side count is [min_points]), the x-coordinates lie
    in [[0, width - 1]], the y-coordinates in [[0, height - 1]] and the
    colour channels in [[0, 255]]. *)
Theorem initialize_sides_at_minimum (n_shapes : nat) (min_points max_points width height : Z)
    (xs ys : list (list Z)) (cs : list rgba) :
  (1 ≤ n_shapes)%nat → min_points ≤ max_points → 0 ≤ max_points →
  1 ≤ width → 1 ≤ height →
  randint_array width n_shapes (Z.to_nat max_points) xs = true →
  randint_array height n_shapes (Z.to_nat max_points) ys = true →
  randint_colors n_shapes cs = true →
  ∃ shapes points colors,
    initialize n_shapes min_points max_points width height xs ys cs
      = Some (shapes, points, colors) ∧
    length points = n_shapes ∧ Forall (λ n, n = min_points) points ∧
    (inject_Z (sum points) / inject_Z (Z.of_nat n_shapes) == inject_Z min_points)%Q ∧
    length shapes = n_shapes ∧
    Forall (λ row, length row = (Z.to_nat max_points * 2)%nat ∧
                   coordinates_within (width - 1) (height - 1) row) shapes ∧
    length colors = n_shapes ∧ Forall byte_color colors.
Proof.
  intros Hn _ Hmax Hw Hh Hxs Hys Hcs.
  destruct (initialize_rows max_points width height n_shapes xs ys Hxs Hys) as [Hsl Hrows].
  apply randint_colors_spec in Hcs as [Hcl Hcs].
  unfold initialize.
  replace (0 <=? max_points) with true by (symmetry; apply Z.leb_le; lia).
  replace (0 <? width) with true by (symmetry; apply Z.ltb_lt; lia).
  replace (0 <? height) with true by (symmetry; apply Z.ltb_lt; lia).
  cbn [andb]. do 3 eexists. split; [reflexivity |].
  split; [apply length_replicate |].
  split; [apply Forall_replicate; reflexivity |].
  split.
  { rewrite sum_replicate, inject_Z_mult. field.
    intros H0. unfold Qeq in H0. cbn in H0. lia. }
  split; [exact Hsl |].
  split; [exact Hrows | split; assumption].
Qed.

Lemma initialize_sides_at_minimum_witness :
  ∃ shapes points colors,
    initialize 2 3 4 10 8 [[0; 9; 5; 3]; [1; 2; 3; 4]] [[7; 0; 2; 6]; [5; 5; 5; 5]]
                 [(0, 255, 7, 100); (1, 2, 3, 4)]
      = Some (shapes, points, colors) ∧
    length points = 2%nat ∧ Forall (λ n, n = 3) points ∧
    (inject_Z (sum points) / inject_Z (Z.of_nat 2) == inject_Z 3)%Q ∧
    length shapes = 2%nat ∧
    Forall (λ row, length row = (Z.to_nat 4 * 2)%nat ∧
                   coordinates_within (10 - 1) (8 - 1) row) shapes ∧
    length colors = 2%nat ∧ Forall byte_color colors.
Proof.
  apply (initialize_sides_at_minimum 2 3 4 10 8); try lia; reflexivity.
Defined.

(** C10, as stated, at [min_points = -2], [max_points = -1] (so
    [max_points >= min_points]), one polygon and a 10 x 10 canvas:
    [np.empty] is asked for a negative dimension and [initialize] raises,
    whatever the generator would draw. *)
Lemma initialize_raises_on_negative_max_points :
  (1 ≤ 1)%nat ∧ -2 ≤ -1 ∧ 1 ≤ 10 ∧ 1 ≤ 10 ∧
  ∀ (xs ys : list (list Z)) (cs : list rgba), initialize 1 (-2) (-1) 10 10 xs ys cs = None.
Proof. repeat split; try lia. Qed.

(** ** Scorer *)

Lemma has_shape_flat h w (a : raster) : has_shape h w a → length (mjoin a) = (h * w)%nat.
Proof.
  intros [<- Hrows]. induction Hrows as [| row a Hrow _ IH]; [reflexivity |].
  cbn. rewrite length_app, Hrow. f_equal. exact IH.
Qed.

Lemma has_shape_lengths h w (a : raster) : has_shape h w a → map length a = replicate h w.
Proof.
  intros [<- Hrows]. induction Hrows as [| row a Hrow _ IH]; [reflexivity |].
  cbn. congruence.
Qed.

Lemma byte_raster_flat (a : raster) : byte_raster a → Forall byte_pixel (mjoin a).
Proof.
  intros H. induction H as [| row a Hrow _ IH]; [constructor |].
  cbn. apply Forall_app. split; assumption.
Qed.

(** On byte pixels the [int32] arithmetic is exact, and the sum of a list
    of [n] pixels lies between 0 and [765 * n]. *)
Lemma sum_abs_bounds (pa pb : list pixel) :
  Forall byte_pixel pa → Forall byte_pixel pb →
  0 ≤ sum (map (λ d, int32 (Z.abs (int32 d)))
               (mjoin (zip_with (λ p q : pixel, [p.1.1 - q.1.1; p.1.2 - q.1.2; p.2 - q.2]) pa pb)))
    ≤ 765 * Z.of_nat (length pa).
Proof.
  intros Ha. revert pb. induction Ha as [| p pa Hp _ IH]; intros pb Hb.
  - cbn. lia.
  - destruct Hb as [| q pb Hq Hb]; [cbn; lia |].
    specialize (IH pb Hb). destruct Hp as (? & ? & ?), Hq as (? & ? & ?).
    unfold byte in *. cbn [zip_with mjoin list_join app map sum foldr length] in *.
    unfold sum in IH.
    rewrite !(int32_small (_ - _)) by lia.
    rewrite !int32_small by lia.
    rewrite Nat2Z.inj_succ. set (t := foldr _ _ _) in *. lia.
Qed.

Lemma error_abs_bounds (a b : raster) (h w : nat) :
  has_shape h w a → has_shape h w b → byte_raster a → byte_raster b →
  765 * Z.of_nat h * Z.of_nat w < 2 ^ 63 →
  ∃ e, error_abs a b = Some e ∧ 0 ≤ e ≤ 765 * Z.of_nat h * Z.of_nat w.
Proof.
  intros Ha Hb Hba Hbb Hsize. unfold error_abs.
  rewrite (has_shape_lengths _ _ _ Ha), (has_shape_lengths _ _ _ Hb).
  destruct (decide _) as [_ | Hne]; [| congruence].
  eexists. split; [reflexivity |].
  pose proof (sum_abs_bounds _ _ (byte_raster_flat _ Hba) (byte_raster_flat _ Hbb)) as Hs.
  rewrite (has_shape_flat _ _ _ Ha) in Hs. unfold subtract.
  change (2 ^ 63) with 9223372036854775808 in Hsize.
  rewrite int64_small; lia.
Qed.

Lemma shape_product h w (image : raster) :
  has_shape h w image → shape0 image * shape1 image = Z.of_nat w * Z.of_nat h.
Proof.
  intros [<- Hrows]. unfold shape0, shape1.
  destruct Hrows as [| row image Hrow _]; cbn [length head default]; [lia |].
  unfold id. rewrite Hrow. apply Z.mul_comm.
Qed.

(** C7: [error_percent(e, raster)] is [e / (w * h * 255 * 3) * 100] on a
    raster of width [w] and height [h], for every [e]; and for the
    [error_abs] of two non-empty rasters of that shape with channels in
    [[0, 255]] (small enough for the 64-bit sum) it lies in [[0, 100]]. *)
Theorem error_percent_bounds (b : raster) (h w : nat) :
  has_shape h w b →
  (∀ e, error_percent e b
        = (inject_Z e / inject_Z (Z.of_nat w * Z.of_nat h * 255 * 3) * 100)%Q) ∧
  (∀ a, has_shape h w a → byte_raster a → byte_raster b →
        (0 < h)%nat → (0 < w)%nat → 765 * Z.of_nat h * Z.of_nat w < 2 ^ 63 →
        ∃ e, error_abs a b = Some e ∧
             (0 <= error_percent e b)%Q ∧ (error_percent e b <= 100)%Q).
Proof.
  intros Hb.
  assert (∀ e, error_percent e b
        = (inject_Z e / inject_Z (Z.of_nat w * Z.of_nat h * 255 * 3) * 100)%Q) as Heq.
  { intros e. unfold error_percent. rewrite (shape_product _ _ _ Hb). reflexivity. }
  split; [exact Heq |].
  intros a Ha Hba Hbb Hh Hw Hsize.
  destruct (error_abs_bounds a b h w Ha Hb Hba Hbb Hsize) as (e & He & Hlo & Hhi).
  exists e. split; [exact He |]. rewrite Heq.
  set (d := Z.of_nat w * Z.of_nat h * 255 * 3).
  assert (0 < d) as Hd by (unfold d; lia).
  assert (e ≤ d) as Hed by (unfold d; lia).
  assert (0 < inject_Z d)%Q as HdQ by (rewrite <- (Zlt_Qlt 0); exact Hd).
  split.
  - apply Qmult_le_0_compat; [| discriminate].
    apply Qle_shift_div_l; [exact HdQ |]. rewrite Qmult_0_l.
    rewrite <- (Zle_Qle 0). exact Hlo.
  - apply Qle_trans with (1 * 100)%Q; [| discriminate].
    apply Qmult_le_compat_r; [| discriminate].
    apply Qle_shift_div_r; [exact HdQ |]. rewrite Qmult_1_l.
    rewrite <- Zle_Qle. exact Hed.
Qed.

Lemma error_percent_bounds_witness :
  (∀ e, error_percent e [[(255, 0, 10); (255, 255, 255)]]
        = (inject_Z e / inject_Z (Z.of_nat 2 * Z.of_nat 1 * 255 * 3) * 100)%Q) ∧
  ∃ e, error_abs [[(0, 0, 0); (255, 255, 255)]] [[(255, 0, 10); (255, 255, 255)]] = Some e ∧
       (0 <= error_percent e [[(255, 0, 10); (255, 255, 255)]]%Z)%Q ∧
       (error_percent e [[(255, 0, 10); (255, 255, 255)]]%Z <= 100)%Q.
Proof.
  destruct (error_percent_bounds [[(255, 0, 10); (255, 255, 255)]] 1 2) as [Hformula Hbounds].
  { split; [reflexivity | repeat constructor]. }
  split; [exact Hformula |].
  apply (Hbounds [[(0, 0, 0); (255, 255, 255)]]).
  - split; [reflexivity | repeat constructor].
  - repeat constructor; cbn; lia.
  - repeat constructor; cbn; lia.
  - lia.
  - lia.
  - reflexivity.
Defined.

(** ** Rasterizer *)

Section RasterizerFacts.

Variable covers : list Z → Z → Z → bool.
Variable thumbnail : Z → Z → raster → raster.

Lemma over_byte ink p : byte_pixel (over ink p).
Proof.
  destruct ink as [[[r g] b] a], p as [[pr pg] pb].
  repeat split; apply uint8_byte.
Qed.

Lemma polygon_shape xy ink h w image :
  has_shape h w image → has_shape h w (polygon covers xy ink image).
Proof.
  intros [Hh Hrows]. unfold polygon. split; [rewrite length_imap; exact Hh |].
  apply Forall_lookup_2. intros y row Hrow.
  rewrite list_lookup_imap in Hrow.
  apply fmap_Some in Hrow as (row0 & E & ->). rewrite length_imap.
  apply (Forall_lookup_1 _ _ _ _ Hrows E).
Qed.

Lemma polygon_bytes xy ink image :
  byte_raster image → byte_raster (polygon covers xy ink image).
Proof.
  intros Hb. unfold polygon. apply Forall_lookup_2. intros y row Hrow.
  rewrite list_lookup_imap in Hrow.
  apply fmap_Some in Hrow as (row0 & E & ->). apply Forall_lookup_2. intros x p Hp.
  rewrite list_lookup_imap in Hp.
  apply fmap_Some in Hp as (p0 & E0 & ->).
  destruct (covers xy (Z.of_nat x) (Z.of_nat y)); [apply over_byte |].
  apply (Forall_lookup_1 _ _ _ _ (Forall_lookup_1 _ _ _ _ Hb E) E0).
Qed.

Lemma new_image_shape w h : has_shape (Z.to_nat h) (Z.to_nat w) (new_image w h).
Proof.
  unfold new_image. split; [apply length_replicate |].
  apply Forall_replicate, length_replicate.
Qed.

Lemma new_image_bytes w h : byte_raster (new_image w h).
Proof.
  unfold new_image. apply Forall_replicate, Forall_replicate.
  repeat split; cbn; lia.
Qed.

(** A render without antialiasing has the canvas's shape and byte channels. *)
Lemma draw_image_raster width height shapes points colors :
  has_shape (Z.to_nat height) (Z.to_nat width)
            (draw_image covers thumbnail width height shapes points colors false) ∧
  byte_raster (draw_image covers thumbnail width height shapes points colors false).
Proof.
  unfold draw_image. rewrite !Z.mul_1_r.
  generalize (new_image_shape width height), (new_image_bytes width height).
  generalize (new_image width height) as image.
  induction (zip (zip shapes points) colors) as [| [[s n] c] l IH]; intros image Hs Hb.
  - split; assumption.
  - cbn [foldl]. apply IH; [apply polygon_shape | apply polygon_bytes]; assumption.
Qed.

(** Opaque white painted on a white canvas leaves it white, wherever the
    polygon lies. *)
Lemma polygon_white xy w h :
  polygon covers xy (255, 255, 255, 255) (new_image w h) = new_image w h.
Proof.
  unfold polygon, new_image. apply list_eq. intros y.
  rewrite list_lookup_imap.
  destruct (replicate (Z.to_nat h) (replicate (Z.to_nat w) white) !! y) as [row |] eqn:E;
    [| reflexivity].
  apply lookup_replicate in E as [-> _]. cbn. f_equal.
  apply list_eq. intros x. rewrite list_lookup_imap.
  destruct (replicate (Z.to_nat w) white !! x) as [p |] eqn:E; [| reflexivity].
  apply lookup_replicate in E as [-> _]. cbn.
  destruct (covers xy (Z.of_nat x) (Z.of_nat y)); reflexivity.
Qed.

(** The rasterizer only reads the active prefix of a row: a side count
    past the row's capacity draws the same polygon as the capacity. *)
Lemma py_until_all {A} (stop : Z) (l : list A) :
  Z.of_nat (length l) ≤ stop → py_until stop l = l.
Proof.
  intros H. unfold py_until. destruct (Z.ltb_spec stop 0); [lia |].
  apply take_ge. lia.
Qed.

End RasterizerFacts.

(** ** Search loop *)

Section SearchLoop.

Variable covers : list Z → Z → Z → bool.
Variable thumbnail : Z → Z → raster → raster.
Variables (min_points max_points width height : Z) (internal : raster).

Lemma iterate_score_le st d st' :
  iterate covers thumbnail min_points max_points width height internal st d = Some st' →
  score_of st' ≤ score_of st.
Proof.
  destruct st as [[[[shapes points] colors] image] score]. unfold iterate.
  destruct (changes _ _ _ _ _ _ _ d) as [[[s n] c] |]; [| discriminate]. cbn.
  destruct (error_abs _ _) as [new_score |]; [| discriminate]. cbn.
  destruct (Z.leb_spec new_score score); intros [= <-]; cbn; lia.
Qed.

Lemma run_score_le draws st :
  score_of (run covers thumbnail min_points max_points width height internal draws st)
  ≤ score_of st.
Proof.
  revert st. induction draws as [| d draws IH]; intros st; cbn; [lia |].
  destruct (iterate _ _ _ _ _ _ _ st d) as [st' |] eqn:E; [| lia].
  apply iterate_score_le in E. specialize (IH st'). lia.
Qed.

Lemma run_step_score_le draws st k :
  score_of (run covers thumbnail min_points max_points width height internal
                (take (S k) draws) st)
  ≤ score_of (run covers thumbnail min_points max_points width height internal
                  (take k draws) st).
Proof.
  revert st k. induction draws as [| d draws IH]; intros st k.
  - rewrite !take_nil. cbn. lia.
  - destruct k as [| k].
    + rewrite take_0. apply run_score_le.
    + cbn [take run]. destruct (iterate _ _ _ _ _ _ _ st d) as [st' |]; [apply IH | lia].
Qed.

(** [iterate] on a state whose candidate is produced and scored. *)
Lemma iterate_candidate
    (shapes : list (list Z)) (points : list Z) (colors : list rgba)
    (image : raster) (score : Z) (d : draw)
    (new_shapes : list (list Z)) (new_points : list Z) (new_colors : list rgba)
    (new_score : Z) :
  changes min_points max_points width height shapes points colors d
    = Some (new_shapes, new_points, new_colors) →
  error_abs internal
            (draw_image covers thumbnail width height new_shapes new_points new_colors false)
    = Some new_score →
  iterate covers thumbnail min_points max_points width height internal
          (shapes, points, colors, image, score) d
  = if new_score <=? score
    then Some (new_shapes, new_points, new_colors,
               draw_image covers thumbnail width height new_shapes new_points new_colors
                          false,
               new_score)
    else Some (shapes, points, colors, image, score).
Proof.
  intros Hcand Hscore. unfold iterate. rewrite Hcand. cbn [mbind option_bind].
  rewrite Hscore. reflexivity.
Qed.

(** C1: [iterate] returns the candidate (polygon set, raster, score) when
    the candidate's absolute error is at most the current score, ties
    included, and the current state unchanged when it is larger; along the
    loop the accepted score after [k + 1] iterations is at most the one
    after [k]. *)
Theorem iterate_accepts_iff_not_worse :
  (∀ (shapes : list (list Z)) (points : list Z) (colors : list rgba)
     (image : raster) (score : Z) (d : draw)
     (new_shapes : list (list Z)) (new_points : list Z) (new_colors : list rgba)
     (new_score : Z),
     changes min_points max_points width height shapes points colors d
       = Some (new_shapes, new_points, new_colors) →
     error_abs internal
               (draw_image covers thumbnail width height new_shapes new_points new_colors
                           false)
       = Some new_score →
     (new_score ≤ score →
      iterate covers thumbnail min_points max_points width height internal
              (shapes, points, colors, image, score) d
      = Some (new_shapes, new_points, new_colors,
              draw_image covers thumbnail width height new_shapes new_points new_colors
                         false,
              new_score)) ∧
     (score < new_score →
      iterate covers thumbnail min_points max_points width height internal
              (shapes, points, colors, image, score) d
      = Some (shapes, points, colors, image, score))) ∧
  (∀ draws st k,
     score_of (run covers thumbnail min_points max_points width height internal
                   (take (S k) draws) st)
     ≤ score_of (run covers thumbnail min_points max_points width height internal
                     (take k draws) st)).
Proof.
  split.
  - intros shapes points colors image score d new_shapes new_points new_colors new_score
           Hcand Hscore.
    rewrite (iterate_candidate _ _ _ _ _ _ _ _ _ _ Hcand Hscore). split.
    + intros Hle. apply Z.leb_le in Hle. rewrite Hle. reflexivity.
    + intros Hlt. apply Z.leb_gt in Hlt. rewrite Hlt. reflexivity.
  - intros draws st k. apply run_step_score_le.
Qed.

(** The score of a candidate is not negative. *)
Lemma candidate_score_nonneg shapes points colors e :
  has_shape (Z.to_nat height) (Z.to_nat width) internal → byte_raster internal →
  765 * Z.of_nat (Z.to_nat height) * Z.of_nat (Z.to_nat width) < 2 ^ 63 →
  error_abs internal (draw_image covers thumbnail width height shapes points colors false)
    = Some e →
  0 ≤ e.
Proof.
  intros Hs Hb Hsize He.
  destruct (draw_image_raster covers thumbnail width height shapes points colors) as [Hs' Hb'].
  destruct (error_abs_bounds _ _ _ _ Hs Hs' Hb Hb' Hsize) as (e' & He' & Hlo & _).
  congruence.
Qed.

(** A state whose score is an absolute error of byte rasters keeps a score
    that is not negative. *)
Lemma iterate_score_nonneg st d st' :
  has_shape (Z.to_nat height) (Z.to_nat width) internal → byte_raster internal →
  765 * Z.of_nat (Z.to_nat height) * Z.of_nat (Z.to_nat width) < 2 ^ 63 →
  0 ≤ score_of st →
  iterate covers thumbnail min_points max_points width height internal st d = Some st' →
  0 ≤ score_of st'.
Proof.
  intros Hs Hb Hsize Hst.
  destruct st as [[[[shapes points] colors] image] score]. unfold iterate.
  destruct (changes _ _ _ _ _ _ _ d) as [[[s n] c] |]; [| discriminate].
  cbn [mbind option_bind].
  destruct (draw_image_raster covers thumbnail width height s n c) as [Hs' Hb'].
  destruct (error_abs_bounds _ _ _ _ Hs Hs' Hb Hb' Hsize) as (e & -> & He & _).
  cbn [mbind option_bind].
  destruct (e <=? score); intros [= <-]; cbn; [lia | exact Hst].
Qed.

Lemma run_score_nonneg draws st :
  has_shape (Z.to_nat height) (Z.to_nat width) internal → byte_raster internal →
  765 * Z.of_nat (Z.to_nat height) * Z.of_nat (Z.to_nat width) < 2 ^ 63 →
  0 ≤ score_of st →
  0 ≤ score_of (run covers thumbnail min_points max_points width height internal draws st).
Proof.
  intros Hs Hb Hsize. revert st. induction draws as [| d draws IH]; intros st Hst; [exact Hst |].
  cbn. destruct (iterate _ _ _ _ _ _ _ st d) as [st' |] eqn:E; [| exact Hst].
  apply IH. eapply iterate_score_nonneg; eassumption.
Qed.

End SearchLoop.

Lemma iterate_accepts_iff_not_worse_witness :
  (0 ≤ 0 →
   iterate even_odd keep_size 3 5 10 10 (new_image 10 10)
           ([[2; 2; 8; 2; 5; 8; 0; 0; 0; 0]], [3], [(255, 255, 255, 0)],
            new_image 10 10, 0) {| index := 0; func := Point (3, -1) 1 |}
   = Some ([[2; 2; 10; 1; 5; 8; 0; 0; 0; 0]], [3], [(255, 255, 255, 0)],
           draw_image even_odd keep_size 10 10 [[2; 2; 10; 1; 5; 8; 0; 0; 0; 0]] [3]
                      [(255, 255, 255, 0)] false, 0)) ∧
  (0 < 0 →
   iterate even_odd keep_size 3 5 10 10 (new_image 10 10)
           ([[2; 2; 8; 2; 5; 8; 0; 0; 0; 0]], [3], [(255, 255, 255, 0)],
            new_image 10 10, 0) {| index := 0; func := Point (3, -1) 1 |}
   = Some ([[2; 2; 8; 2; 5; 8; 0; 0; 0; 0]], [3], [(255, 255, 255, 0)],
           new_image 10 10, 0)).
Proof.
  apply (proj1 (iterate_accepts_iff_not_worse even_odd keep_size 3 5 10 10
                  (new_image 10 10))
           [[2; 2; 8; 2; 5; 8; 0; 0; 0; 0]] [3] [(255, 255, 255, 0)]
           (new_image 10 10) 0 {| index := 0; func := Point (3, -1) 1 |});
    vm_compute; reflexivity.
Defined.

(** ** The white triangle on a white target *)

Section WhiteTriangle.

Variable covers : list Z → Z → Z → bool.
Variable thumbnail : Z → Z → raster → raster.

Lemma draw_white_polygon (row : list Z) (n : Z) :
  draw_image covers thumbnail 10 10 [row] [n] [(255, 255, 255, 255)] false = new_image 10 10.
Proof. unfold draw_image. cbn [zip zip_with foldl]. apply polygon_white. Qed.

(** C9, as amended: in the scenario (one polygon, [min_points = max_points
    = 3], a 10 x 10 all-white target, the polygon pure white with alpha
    255, any stored coordinates) the initial [error_abs] is 0 and, along
    every sequence of iterations, the accepted score stays 0; every
    proposal has a score that is not negative, one of score 0 is accepted
    (a tie) and one of positive score is rejected. *)
Theorem white_triangle_score_stays_zero (row : list Z) (draws : list draw) :
  ∃ st0,
    start covers thumbnail 10 10 (new_image 10 10) ([row], [3], [(255, 255, 255, 255)])
      = Some st0 ∧
    error_abs (new_image 10 10)
              (draw_image covers thumbnail 10 10 [row] [3] [(255, 255, 255, 255)] false)
      = Some 0 ∧
    score_of st0 = 0 ∧
    (∀ k, score_of (run covers thumbnail 3 3 10 10 (new_image 10 10) (take k draws) st0)
          = 0) ∧
    (∀ k shapes points colors image score d new_shapes new_points new_colors new_score,
       run covers thumbnail 3 3 10 10 (new_image 10 10) (take k draws) st0
         = (shapes, points, colors, image, score) →
       changes 3 3 10 10 shapes points colors d
         = Some (new_shapes, new_points, new_colors) →
       error_abs (new_image 10 10)
                 (draw_image covers thumbnail 10 10 new_shapes new_points new_colors false)
         = Some new_score →
       0 ≤ new_score ∧
       (new_score = 0 →
        iterate covers thumbnail 3 3 10 10 (new_image 10 10)
                (shapes, points, colors, image, score) d
        = Some (new_shapes, new_points, new_colors,
                draw_image covers thumbnail 10 10 new_shapes new_points new_colors false,
                0)) ∧
       (0 < new_score →
        iterate covers thumbnail 3 3 10 10 (new_image 10 10)
                (shapes, points, colors, image, score) d
        = Some (shapes, points, colors, image, score))).
Proof.
  assert (error_abs (new_image 10 10)
            (draw_image covers thumbnail 10 10 [row] [3] [(255, 255, 255, 255)] false)
          = Some 0) as Herr.
  { rewrite draw_white_polygon. vm_compute. reflexivity. }
  assert (765 * Z.of_nat (Z.to_nat 10) * Z.of_nat (Z.to_nat 10) < 2 ^ 63) as Hsize
    by (vm_compute; reflexivity).
  set (st0 := ([row], [3], [(255, 255, 255, 255)],
               draw_image covers thumbnail 10 10 [row] [3] [(255, 255, 255, 255)] false,
               0) : state).
  assert (∀ k, score_of (run covers thumbnail 3 3 10 10 (new_image 10 10)
                             (take k draws) st0) = 0) as Hzero.
  { intros k. apply Z.le_antisymm.
    - apply (run_score_le covers thumbnail 3 3 10 10 (new_image 10 10)).
    - apply run_score_nonneg;
        [apply new_image_shape | apply new_image_bytes | exact Hsize | cbn; lia]. }
  exists st0. split.
  { unfold start. rewrite Herr. reflexivity. }
  split; [exact Herr |]. split; [reflexivity |]. split; [exact Hzero |].
  intros k shapes points colors image score d new_shapes new_points new_colors new_score
         Hrun Hcand Hscore.
  assert (score = 0) as -> by (specialize (Hzero k); rewrite Hrun in Hzero; exact Hzero).
  pose proof (candidate_score_nonneg covers thumbnail 10 10 (new_image 10 10) _ _ _ _
                (new_image_shape 10 10) (new_image_bytes 10 10) Hsize Hscore) as Hnonneg.
  rewrite (iterate_candidate covers thumbnail 3 3 10 10 (new_image 10 10)
             _ _ _ _ _ _ _ _ _ _ Hcand Hscore).
  split; [exact Hnonneg |]. split.
  - intros ->. reflexivity.
  - intros Hpos. apply Z.leb_gt in Hpos. rewrite Hpos. reflexivity.
Qed.

(** With [min_points = max_points] the [number] proposal only raises the
    side count past the row's capacity: the render and the score are the
    same, and the tie is accepted. *)
Lemma number_accepted_at_equal_bounds (row : list Z) (c : rgba) (n choice : Z)
    (width height : Z) (internal : raster) (score : Z) :
  Z.of_nat (length row) ≤ n * 2 →
  error_abs internal (draw_image covers thumbnail width height [row] [n] [c] false)
    = Some score →
  iterate covers thumbnail n n width height internal
          ([row], [n], [c], draw_image covers thumbnail width height [row] [n] [c] false, score)
          {| index := 0; func := Number choice |}
  = Some ([row], [n + 1], [c],
          draw_image covers thumbnail width height [row] [n] [c] false, score).
Proof.
  intros Hlen Hscore. unfold iterate, changes, number. cbn [func index].
  cbn [lookup list_lookup mbind option_bind]. rewrite Z.eqb_refl.
  cbn [insert list_insert].
  assert (draw_image covers thumbnail width height [row] [n + 1] [c] false
          = draw_image covers thumbnail width height [row] [n] [c] false) as ->.
  { unfold draw_image. cbn [zip zip_with foldl].
    rewrite !py_until_all by lia. reflexivity. }
  rewrite Hscore. cbn [mbind option_bind]. rewrite Z.leb_refl. reflexivity.
Qed.

End WhiteTriangle.

(** C9, as stated, on the triangle (2,2) (8,2) (5,8): the [number]
    proposal has score 0 and is accepted, and the accepted polygon set
    changes (the side count becomes 4). *)
Lemma white_triangle_accepts_a_mutation :
  ∃ st0 st1,
    start even_odd keep_size 10 10 (new_image 10 10)
          ([[2; 2; 8; 2; 5; 8]], [3], [(255, 255, 255, 255)]) = Some st0 ∧
    score_of st0 = 0 ∧
    drawn 1 3 10 10 [3] {| index := 0; func := Number 1 |} = true ∧
    iterate even_odd keep_size 3 3 10 10 (new_image 10 10) st0
            {| index := 0; func := Number 1 |} = Some st1 ∧
    st1 ≠ st0 ∧ st1.1.1.1.2 = [4].
Proof.
  do 2 eexists. split; [vm_compute; reflexivity |].
  split; [reflexivity |]. split; [vm_compute; reflexivity |].
  split; [vm_compute; reflexivity |]. split; [| reflexivity].
  intros H. discriminate H.
Qed.

(** ** The [order] operator *)

(** A row of stored pairs is the interleaving of its x's and y's. *)
Lemma row_interleave (l : list Z) (p : nat) :
  length l = (p * 2)%nat →
  ∃ xs ys, length xs = p ∧ length ys = p ∧ l = interleave xs ys.
Proof.
  revert l. induction p as [| p IH]; intros l Hl.
  - destruct l; [| discriminate]. exists [], []. repeat split.
  - destruct l as [| x [| y l]]; try discriminate.
    destruct (IH l) as (xs & ys & Hx & Hy & ->); [cbn in Hl; lia |].
    exists (x :: xs), (y :: ys). cbn. repeat split; congruence.
Qed.

Lemma row_split (row : list Z) (p : nat) :
  (p * 2 ≤ length row)%nat →
  ∃ xs ys inert, length xs = p ∧ length ys = p ∧ row = interleave xs ys ++ inert.
Proof.
  intros Hlen.
  destruct (row_interleave (take (p * 2) row) p) as (xs & ys & Hx & Hy & Hrow).
  { rewrite length_take. lia. }
  exists xs, ys, (drop (p * 2) row). repeat split; try assumption.
  rewrite <- Hrow. symmetry. apply take_drop.
Qed.

Lemma evens_interleave (xs ys : list Z) :
  length xs = length ys → evens (interleave xs ys) = xs.
Proof.
  revert ys. induction xs as [| x xs IH]; intros [| y ys] H; try discriminate; [reflexivity |].
  cbn. f_equal. apply IH. cbn in H. lia.
Qed.

Lemma evens_shifted (y : Z) (xs ys : list Z) :
  length xs = length ys → evens (y :: interleave xs ys) = y :: ys.
Proof.
  revert y ys. induction xs as [| x xs IH]; intros y [| y' ys] H; try discriminate; [reflexivity |].
  cbn [interleave zip_with mjoin list_join app evens]. f_equal.
  apply (IH y' ys). cbn in H. lia.
Qed.

Lemma put_evens_interleave (vs xs ys inert : list Z) :
  length vs = length xs → length ys = length xs →
  put_evens vs (interleave xs ys ++ inert) = interleave vs ys ++ inert.
Proof.
  revert xs ys. induction vs as [| v vs IH]; intros [| x xs] [| y ys] Hv Hy; try discriminate.
  - destruct inert; reflexivity.
  - cbn. f_equal. f_equal. apply IH; cbn in *; lia.
Qed.

Lemma put_evens_shifted (v y : Z) (vs xs ys inert : list Z) :
  length vs = length xs → length ys = length xs →
  put_evens (v :: vs) (y :: interleave xs ys ++ inert) = v :: interleave xs vs ++ inert.
Proof.
  revert v y vs ys. induction xs as [| x xs IH]; intros v y [| v' vs] [| y' ys] Hv Hy;
    try discriminate.
  - destruct inert; reflexivity.
  - cbn [interleave zip_with mjoin list_join app put_evens]. f_equal. f_equal.
    apply (IH v' y' vs ys); cbn in *; lia.
Qed.

Lemma interleave_app_length (xs ys inert : list Z) :
  length xs = length ys → take (length xs * 2) (interleave xs ys ++ inert) = interleave xs ys.
Proof.
  intros H. rewrite take_app_length'; [reflexivity |]. symmetry. apply interleave_length. exact H.
Qed.

Lemma interleave_lookup (xs ys inert : list Z) (k : nat) :
  length xs = length ys → (k < length xs)%nat →
  (interleave xs ys ++ inert) !! (k * 2)%nat = xs !! k ∧
  (interleave xs ys ++ inert) !! S (k * 2) = ys !! k.
Proof.
  revert ys k. induction xs as [| x xs IH]; intros [| y ys] k H Hk; try discriminate;
    [cbn in Hk; lia |].
  destruct k as [| k]; [split; reflexivity |].
  cbn. apply IH; cbn in *; lia.
Qed.

Lemma vertices_interleave (xs ys : list Z) : vertices (interleave xs ys) = zip xs ys.
Proof.
  revert ys. induction xs as [| x xs IH]; intros [| y ys]; try reflexivity.
  cbn. f_equal. apply IH.
Qed.

(** Fancy indexing by a permutation of the positions. *)
Lemma lookup_all_seq {A} (d : A) (l : list A) :
  (λ s, default d (l !! s)) <$> seq 0 (length l) = l.
Proof.
  induction l as [| a l IH]; [reflexivity |].
  cbn [length seq fmap list_fmap]. f_equal.
  rewrite <- fmap_S_seq, <- list_fmap_compose. exact IH.
Qed.

Lemma fancy_total {A} (d : A) (l : list A) (idx : list nat) :
  Forall (λ s, (s < length l)%nat) idx →
  fancy l idx = Some ((λ s, default d (l !! s)) <$> idx).
Proof.
  intros H. apply mapM_Some_2. induction H as [| s idx Hs _ IH]; [constructor |].
  cbn. constructor; [| exact IH].
  destruct (lookup_lt_is_Some_2 l s Hs) as [a ->]. reflexivity.
Qed.

Lemma shuffle_in_range (shuffle : list nat) (p : nat) :
  shuffle ≡ₚ seq 0 p → Forall (λ s, (s < p)%nat) shuffle.
Proof.
  intros H. apply Forall_forall. intros s Hs. rewrite H in Hs.
  apply elem_of_seq in Hs. lia.
Qed.

Lemma fancy_permutation {A} (d : A) (l : list A) (shuffle : list nat) :
  shuffle ≡ₚ seq 0 (length l) →
  fancy l shuffle = Some ((λ s, default d (l !! s)) <$> shuffle) ∧
  (λ s, default d (l !! s)) <$> shuffle ≡ₚ l.
Proof.
  intros H. split.
  - apply fancy_total. apply shuffle_in_range. exact H.
  - rewrite H. rewrite lookup_all_seq. reflexivity.
Qed.

Lemma slice2_xs (xs ys inert : list Z) :
  length ys = length xs →
  slice2 0 (length xs * 2) (interleave xs ys ++ inert) = xs.
Proof.
  intros H. unfold slice2. rewrite interleave_app_length by lia.
  apply evens_interleave. lia.
Qed.

Lemma slice2_ys (xs ys inert : list Z) :
  length ys = length xs →
  slice2 1 (length xs * 2) (interleave xs ys ++ inert) = ys.
Proof.
  intros H. unfold slice2. rewrite interleave_app_length by lia.
  destruct xs as [| x xs], ys as [| y ys]; try discriminate; [reflexivity |].
  cbn [interleave zip_with mjoin list_join app drop]. apply evens_shifted.
  cbn in H. lia.
Qed.

Lemma set_slice2_xs (vs xs ys inert : list Z) :
  length vs = length xs → length ys = length xs →
  set_slice2 0 (length xs * 2) vs (interleave xs ys ++ inert)
  = Some (interleave vs ys ++ inert).
Proof.
  intros Hv Hy. unfold set_slice2. rewrite slice2_xs by exact Hy.
  destruct (decide (length vs = length xs)) as [_ | Hne]; [| contradiction].
  f_equal. apply put_evens_interleave; assumption.
Qed.

Lemma set_slice2_ys (vs xs ys inert : list Z) :
  length vs = length xs → length ys = length xs →
  set_slice2 1 (length xs * 2) vs (interleave xs ys ++ inert)
  = Some (interleave xs vs ++ inert).
Proof.
  intros Hv Hy. unfold set_slice2. rewrite slice2_ys by exact Hy.
  destruct (decide (length vs = length ys)) as [_ | Hne]; [| lia].
  f_equal. destruct xs as [| x xs], ys as [| y ys], vs as [| v vs]; try discriminate.
  - destruct inert; reflexivity.
  - cbn [interleave zip_with mjoin list_join app drop take].
    f_equal. apply put_evens_shifted; cbn in *; lia.
Qed.

(** What [order] computes on a well-formed polygon: the x's and the y's of
    the active prefix are both indexed by [shuffle], the rest of the row
    stays. *)
Lemma order_row (shapes : list (list Z)) (points : list Z) (colors : list rgba)
    (index : nat) (shuffle : list nat) (n : Z) (xs ys inert : list Z) :
  points !! index = Some n → 0 ≤ n →
  shapes !! index = Some (interleave xs ys ++ inert) →
  length xs = Z.to_nat n → length ys = Z.to_nat n →
  shuffle ≡ₚ seq 0 (Z.to_nat n) →
  order shapes points colors index shuffle
  = Some (<[index := interleave ((λ s, default 0 (xs !! s)) <$> shuffle)
                                ((λ s, default 0 (ys !! s)) <$> shuffle) ++ inert]> shapes,
          points, colors).
Proof.
  intros Hn Hpos Hrow Hx Hy Hperm. unfold order.
  rewrite Hn. cbn [mbind option_bind].
  destruct (Z.ltb_spec n 0) as [| _]; [lia |].
  rewrite Hrow. cbn [mbind option_bind].
  replace (Z.to_nat (n * 2)) with (length xs * 2)%nat by lia.
  assert (length shuffle = length xs) as Hs.
  { rewrite Hperm, length_seq. lia. }
  set (xs' := (λ s, default 0 (xs !! s)) <$> shuffle).
  set (ys' := (λ s, default 0 (ys !! s)) <$> shuffle).
  assert (length xs' = length xs) as Hx' by (unfold xs'; rewrite length_fmap; exact Hs).
  assert (length ys' = length xs) as Hy' by (unfold ys'; rewrite length_fmap; exact Hs).
  rewrite slice2_xs by lia.
  destruct (fancy_permutation 0 xs shuffle) as [-> _]; [rewrite Hx; exact Hperm |].
  fold xs'. cbn [mbind option_bind].
  rewrite set_slice2_xs by lia. cbn [mbind option_bind].
  replace (length xs * 2)%nat with (length xs' * 2)%nat by lia.
  rewrite slice2_ys by lia.
  destruct (fancy_permutation 0 ys shuffle) as [-> _]; [rewrite Hy; exact Hperm |].
  fold ys'. cbn [mbind option_bind].
  rewrite set_slice2_ys by lia. reflexivity.
Qed.

Lemma zip_fmap_same {A B C} (f : A → B) (g : A → C) (l : list A) :
  zip (f <$> l) (g <$> l) = (λ a, (f a, g a)) <$> l.
Proof. induction l as [| a l IH]; [reflexivity |]. cbn. f_equal. exact IH. Qed.

(** C6: on a polygon whose [sides[index]] active pairs fit its row, [order]
    indexes the x's and the y's of the active pairs by one and the same
    permutation: every new active pair is an old active pair, the active
    pairs are the same multiset, the inert pairs and the other polygons
    are untouched, [points] and [colors] are returned as they are; with
    one active pair the polygon set is returned unchanged. *)
Theorem order_permutes_active_pairs
    (shapes : list (list Z)) (points : list Z) (colors : list rgba)
    (index : nat) (shuffle : list nat) (n : Z) (row : list Z) :
  points !! index = Some n → 0 ≤ n →
  shapes !! index = Some row →
  (Z.to_nat n * 2 ≤ length row)%nat →
  shuffle ≡ₚ seq 0 (Z.to_nat n) →
  ∃ row',
    order shapes points colors index shuffle
      = Some (<[index := row']> shapes, points, colors) ∧
    length row' = length row ∧
    (∀ k s, shuffle !! k = Some s →
            row' !! (k * 2)%nat = row !! (s * 2)%nat ∧
            row' !! S (k * 2) = row !! S (s * 2)) ∧
    (∀ i, (Z.to_nat n * 2 ≤ i)%nat → row' !! i = row !! i) ∧
    vertices (take (Z.to_nat n * 2) row') ≡ₚ vertices (take (Z.to_nat n * 2) row) ∧
    (∀ j, j ≠ index → <[index := row']> shapes !! j = shapes !! j) ∧
    (n = 1 → order shapes points colors index shuffle = Some (shapes, points, colors)).
Proof.
  intros Hn Hpos Hrow Hlen Hperm.
  destruct (row_split row (Z.to_nat n) Hlen) as (xs & ys & inert & Hx & Hy & ->).
  pose proof (order_row shapes points colors index shuffle n xs ys inert
                Hn Hpos Hrow Hx Hy Hperm) as Horder.
  set (xs' := (λ s, default 0 (xs !! s)) <$> shuffle) in *.
  set (ys' := (λ s, default 0 (ys !! s)) <$> shuffle) in *.
  assert (length shuffle = Z.to_nat n) as Hs by (rewrite Hperm, length_seq; reflexivity).
  assert (length xs' = Z.to_nat n) as Hx' by (unfold xs'; rewrite length_fmap; exact Hs).
  assert (length ys' = Z.to_nat n) as Hy' by (unfold ys'; rewrite length_fmap; exact Hs).
  pose proof (shuffle_in_range shuffle _ Hperm) as Hrange.
  exists (interleave xs' ys' ++ inert).
  split; [exact Horder |]. split; [| split; [| split; [| split; [| split]]]].
  - rewrite !length_app, !interleave_length by lia. lia.
  - intros k s Hk.
    assert (k < Z.to_nat n)%nat as Hkn by (apply lookup_lt_Some in Hk; lia).
    assert (s < Z.to_nat n)%nat as Hsn.
    { apply (Forall_lookup_1 _ _ _ _ Hrange Hk). }
    destruct (interleave_lookup xs' ys' inert k) as [-> ->]; [lia | lia |].
    destruct (interleave_lookup xs ys inert s) as [-> ->]; [lia | lia |].
    unfold xs', ys'. rewrite !list_lookup_fmap, Hk. cbn.
    destruct (lookup_lt_is_Some_2 xs s) as [x ->]; [lia |].
    destruct (lookup_lt_is_Some_2 ys s) as [y ->]; [lia |].
    split; reflexivity.
  - intros i Hi.
    rewrite !lookup_app_r by (rewrite interleave_length; lia).
    rewrite !interleave_length by lia. do 2 f_equal. lia.
  - rewrite <- Hx' at 1. rewrite interleave_app_length by lia.
    rewrite <- Hx. rewrite interleave_app_length by lia.
    rewrite !vertices_interleave.
    unfold xs', ys'. rewrite zip_fmap_same, Hperm.
    rewrite <- zip_fmap_same.
    rewrite <- Hx at 1. rewrite <- Hy. rewrite !lookup_all_seq. reflexivity.
  - intros j Hj. apply list_lookup_insert_ne. congruence.
  - intros ->. rewrite Horder. do 3 f_equal.
    change (Z.to_nat 1) with 1%nat in *.
    apply Permutation_singleton_r in Hperm.
    destruct xs as [| x [| ? ?]], ys as [| y [| ? ?]]; try discriminate.
    unfold xs', ys'. rewrite Hperm. cbn.
    apply list_insert_id. exact Hrow.
Qed.

Lemma order_permutes_active_pairs_witness :
  ∃ row',
    order [[2; 2; 8; 2; 5; 8; 4; 4]] [3] [(9, 9, 9, 9)] 0 [2; 0; 1]%nat
      = Some (<[0%nat := row']> [[2; 2; 8; 2; 5; 8; 4; 4]], [3], [(9, 9, 9, 9)]) ∧
    length row' = length [2; 2; 8; 2; 5; 8; 4; 4] ∧
    (∀ k s, [2; 0; 1]%nat !! k = Some s →
            row' !! (k * 2)%nat = [2; 2; 8; 2; 5; 8; 4; 4] !! (s * 2)%nat ∧
            row' !! S (k * 2) = [2; 2; 8; 2; 5; 8; 4; 4] !! S (s * 2)) ∧
    (∀ i, (Z.to_nat 3 * 2 ≤ i)%nat → row' !! i = [2; 2; 8; 2; 5; 8; 4; 4] !! i) ∧
    vertices (take (Z.to_nat 3 * 2) row')
      ≡ₚ vertices (take (Z.to_nat 3 * 2) [2; 2; 8; 2; 5; 8; 4; 4]) ∧
    (∀ j, j ≠ 0%nat →
          <[0%nat := row']> [[2; 2; 8; 2; 5; 8; 4; 4]] !! j = [[2; 2; 8; 2; 5; 8; 4; 4]] !! j) ∧
    (3 = 1 → order [[2; 2; 8; 2; 5; 8; 4; 4]] [3] [(9, 9, 9, 9)] 0 [2; 0; 1]%nat
             = Some ([[2; 2; 8; 2; 5; 8; 4; 4]], [3], [(9, 9, 9, 9)])).
Proof.
  apply (order_permutes_active_pairs [[2; 2; 8; 2; 5; 8; 4; 4]] [3] [(9, 9, 9, 9)] 0
           [2; 0; 1]%nat 3 [2; 2; 8; 2; 5; 8; 4; 4]).
  - reflexivity.
  - lia.
  - reflexivity.
  - cbn. lia.
  - apply (bool_decide_unpack _). vm_compute. exact I.
Defined.

(** ** The [point] operator *)

(** C3, as amended: [point] picks one stored coordinate pair of the
    target polygon, active or inert (an index below [max_points]), adds to
    x and to y offsets of magnitude at most [max(width, height) / 2] and
    clamps the pair to [[0, width] x [0, height]]; the other entries of the
    row, the other polygons, [points] and [colors] are unchanged. *)
Theorem point_moves_one_stored_pair (n_shapes : nat) (max_points width height : Z)
    (shapes : list (list Z)) (points : list Z) (colors : list rgba)
    (index : nat) (row : list Z) (dx dy : Z) (choice : nat) :
  0 ≤ width → 0 ≤ height →
  shapes !! index = Some row →
  length row = (Z.to_nat max_points * 2)%nat →
  drawn n_shapes max_points width height points
        {| index := index; func := Point (dx, dy) choice |} = true →
  ∃ x y row',
    Z.of_nat choice < max_points ∧
    row !! (choice * 2)%nat = Some x ∧ row !! S (choice * 2) = Some y ∧
    - (Z.max width height / 2) ≤ dx ≤ Z.max width height / 2 ∧
    - (Z.max width height / 2) ≤ dy ≤ Z.max width height / 2 ∧
    point width height shapes points colors index (dx, dy) choice
      = Some (<[index := row']> shapes, points, colors) ∧
    row' !! (choice * 2)%nat = Some (clip (x + dx) 0 width) ∧
    row' !! S (choice * 2) = Some (clip (y + dy) 0 height) ∧
    0 ≤ clip (x + dx) 0 width ≤ width ∧ 0 ≤ clip (y + dy) 0 height ≤ height ∧
    length row' = length row ∧
    (∀ i, i ≠ (choice * 2)%nat → i ≠ S (choice * 2) → row' !! i = row !! i) ∧
    (∀ j, j ≠ index → <[index := row']> shapes !! j = shapes !! j).
Proof.
  intros Hw Hh Hrow Hlen Hdrawn.
  unfold drawn in Hdrawn. cbn -[randint_in point_rng Z.of_nat Z.lt] in Hdrawn.
  rewrite !andb_true_iff, !bool_decide_eq_true, !randint_in_rng in Hdrawn by assumption.
  destruct Hdrawn as (_ & (Hdx & Hdy) & Hchoice).
  destruct (lookup_lt_is_Some_2 row (choice * 2)) as [x Hx]; [lia |].
  destruct (lookup_lt_is_Some_2 row (S (choice * 2))) as [y Hy]; [lia |].
  exists x, y. eexists.
  split; [exact Hchoice |]. split; [exact Hx |]. split; [exact Hy |].
  split; [exact Hdx |]. split; [exact Hdy |].
  split.
  { unfold point. rewrite Hrow. cbn [mbind option_bind].
    rewrite Hx. cbn [mbind option_bind]. rewrite Hy. cbn [mbind option_bind fst snd].
    reflexivity. }
  split.
  { rewrite list_lookup_insert_ne by lia. apply list_lookup_insert_eq. lia. }
  split.
  { apply list_lookup_insert_eq. rewrite length_insert. lia. }
  split; [apply clip_bounds; lia |]. split; [apply clip_bounds; lia |].
  split; [rewrite !length_insert; reflexivity |].
  split.
  - intros i Hi1 Hi2. rewrite !list_lookup_insert_ne by congruence. reflexivity.
  - intros j Hj. apply list_lookup_insert_ne. congruence.
Qed.

Lemma point_moves_one_stored_pair_witness :
  ∃ x y row',
    Z.of_nat 1 < 4 ∧
    [2; 2; 8; 2; 5; 8; 4; 4] !! (1 * 2)%nat = Some x ∧
    [2; 2; 8; 2; 5; 8; 4; 4] !! S (1 * 2) = Some y ∧
    - (Z.max 10 8 / 2) ≤ 5 ≤ Z.max 10 8 / 2 ∧
    - (Z.max 10 8 / 2) ≤ -3 ≤ Z.max 10 8 / 2 ∧
    point 10 8 [[2; 2; 8; 2; 5; 8; 4; 4]] [3] [(9, 9, 9, 9)] 0 (5, -3) 1
      = Some (<[0%nat := row']> [[2; 2; 8; 2; 5; 8; 4; 4]], [3], [(9, 9, 9, 9)]) ∧
    row' !! (1 * 2)%nat = Some (clip (x + 5) 0 10) ∧
    row' !! S (1 * 2) = Some (clip (y + -3) 0 8) ∧
    0 ≤ clip (x + 5) 0 10 ≤ 10 ∧ 0 ≤ clip (y + -3) 0 8 ≤ 8 ∧
    length row' = length [2; 2; 8; 2; 5; 8; 4; 4] ∧
    (∀ i, i ≠ (1 * 2)%nat → i ≠ S (1 * 2) → row' !! i = [2; 2; 8; 2; 5; 8; 4; 4] !! i) ∧
    (∀ j, j ≠ 0%nat →
          <[0%nat := row']> [[2; 2; 8; 2; 5; 8; 4; 4]] !! j = [[2; 2; 8; 2; 5; 8; 4; 4]] !! j).
Proof.
  apply (point_moves_one_stored_pair 1 4 10 8 [[2; 2; 8; 2; 5; 8; 4; 4]] [3] [(9, 9, 9, 9)]
           0 [2; 2; 8; 2; 5; 8; 4; 4] 5 (-3) 1); try lia; reflexivity.
Defined.

(** C3, as stated, with [max_points = 4] and three active pairs: the
    generator can choose the pair 3, which is not active, and [point]
    moves that inert pair. *)
Lemma point_moves_an_inert_pair :
  drawn 1 4 10 10 [3] {| index := 0; func := Point (1, 1) 3 |} = true ∧
  [3] !! 0%nat = Some 3 ∧ ¬ (Z.of_nat 3 < 3) ∧
  point 10 10 [[2; 2; 8; 2; 5; 8; 4; 4]] [3] [(9, 9, 9, 9)] 0 (1, 1) 3
    = Some ([[2; 2; 8; 2; 5; 8; 5; 5]], [3], [(9, 9, 9, 9)]).
Proof. repeat split; try (vm_compute; reflexivity). lia. Qed.

(** ** The clamping invariant *)

Lemma tile_pair_length {A} (a b : A) (n : Z) : length (tile [a; b] n) = (Z.to_nat n * 2)%nat.
Proof.
  unfold tile. induction (Z.to_nat n) as [| k IH]; [reflexivity |].
  cbn in *. f_equal. f_equal. exact IH.
Qed.

Lemma tile_pair_lookup {A} (a b : A) (n : Z) (i : nat) (v : A) :
  tile [a; b] n !! i = Some v → v = if Nat.even i then a else b.
Proof.
  unfold tile. revert i. induction (Z.to_nat n) as [| k IH]; intros i H; [discriminate |].
  destruct i as [| [| i]]; cbn in H |- *; [congruence | congruence |].
  apply (IH i H).
Qed.

Lemma within_interleave_app w h (xs ys inert : list Z) :
  length xs = length ys →
  coordinates_within w h (interleave xs ys ++ inert) ↔
  Forall (λ v, 0 ≤ v ≤ w) xs ∧ Forall (λ v, 0 ≤ v ≤ h) ys ∧ coordinates_within w h inert.
Proof.
  revert ys. induction xs as [| x xs IH]; intros [| y ys] Hlen; try discriminate.
  - cbn. split; [intros H; split; [constructor | split; [constructor | exact H]] | tauto].
  - specialize (IH ys ltac:(cbn in Hlen; lia)). split.
    + intros H.
      assert (coordinates_within w h (interleave xs ys ++ inert)) as Hrest.
      { intros i v Hi. apply (H (S (S i)) v Hi). }
      apply IH in Hrest as (Hx & Hy & Hinert).
      split; [constructor; [apply (H 0%nat x eq_refl) | exact Hx] |].
      split; [constructor; [apply (H 1%nat y eq_refl) | exact Hy] | exact Hinert].
    + intros (Hx & Hy & Hinert).
      apply Forall_cons in Hx as [Hx0 Hx], Hy as [Hy0 Hy].
      intros [| [| i]] v Hi; cbn in Hi.
      * injection Hi as <-. exact Hx0.
      * injection Hi as <-. exact Hy0.
      * assert (coordinates_within w h (interleave xs ys ++ inert)) as Hrest
          by (apply IH; tauto).
        apply (Hrest i v Hi).
Qed.

Lemma Forall_fancy (P : Z → Prop) (l : list Z) (idx : list nat) :
  Forall P l → Forall (λ s, (s < length l)%nat) idx →
  Forall P ((λ s, default 0 (l !! s)) <$> idx).
Proof.
  intros Hl Hidx. apply Forall_fmap. apply (Forall_impl _ _ _ Hidx). intros s Hs. cbn.
  destruct (lookup_lt_is_Some_2 l s Hs) as [v Hv]. rewrite Hv. cbn.
  apply (Forall_lookup_1 _ _ _ _ Hl Hv).
Qed.

Lemma broadcast_same_length (f : Z → Z → Z) (a b : list Z) :
  length a = length b → broadcast f a b = Some (zip_with f a b).
Proof. intros H. unfold broadcast. destruct (decide _); [reflexivity | contradiction]. Qed.

Lemma assign_row_same_length (row value : list Z) :
  length value = length row → assign_row row value = Some value.
Proof. intros H. unfold assign_row. destruct (decide _); [reflexivity | contradiction]. Qed.

Section Clamping.

Variables (n_shapes : nat) (min_points max_points width height : Z).
Hypothesis bounds_differ : min_points < max_points.
Hypothesis min_points_nonneg : 0 ≤ min_points.
Hypothesis width_nonneg : 0 ≤ width.
Hypothesis height_nonneg : 0 ≤ height.

Lemma point_keeps_within (row : list Z) (p q : nat) (x y : Z) :
  coordinates_within width height row → Nat.even p = true → q = S p →
  coordinates_within width height
    (<[q := clip y 0 height]> (<[p := clip x 0 width]> row)).
Proof.
  intros Hrow Hp -> i v Hi.
  destruct (decide (i = S p)) as [-> | Hne1].
  - apply list_lookup_insert_Some in Hi as [(_ & <- & _) | [? _]]; [| contradiction].
    rewrite Nat.even_succ, <- Nat.negb_even, Hp. cbn. apply clip_bounds. lia.
  - rewrite list_lookup_insert_ne in Hi by congruence.
    destruct (decide (i = p)) as [-> | Hne2].
    + apply list_lookup_insert_Some in Hi as [(_ & <- & _) | [? _]]; [| contradiction].
      rewrite Hp. apply clip_bounds. lia.
    + rewrite list_lookup_insert_ne in Hi by congruence. apply (Hrow i v Hi).
Qed.

Lemma shape_row_within (row : list Z) (dx dy : Z) :
  length row = (Z.to_nat max_points * 2)%nat →
  ∃ row',
    (moved ← broadcast Z.add row (tile [dx; dy] max_points);
     clipped ← broadcast (λ v hi, clip v 0 hi) moved (boundaries max_points width height);
     assign_row row clipped) = Some row' ∧
    length row' = length row ∧ coordinates_within width height row'.
Proof.
  intros Hlen.
  rewrite broadcast_same_length by (rewrite tile_pair_length; lia).
  cbn [mbind option_bind]. unfold boundaries.
  rewrite broadcast_same_length by (rewrite length_zip_with, !tile_pair_length; lia).
  cbn [mbind option_bind].
  assert (length (zip_with (λ v hi, clip v 0 hi)
                    (zip_with Z.add row (tile [dx; dy] max_points))
                    (tile [width; height] max_points)) = length row) as Hl
    by (rewrite !length_zip_with, !tile_pair_length; lia).
  rewrite assign_row_same_length by exact Hl.
  eexists. split; [reflexivity |]. split; [exact Hl |].
  intros i v Hi. apply lookup_zip_with_Some in Hi as (m & hi & -> & _ & Hhi).
  apply tile_pair_lookup in Hhi as ->.
  destruct (Nat.even i); apply clip_bounds; lia.
Qed.

(** On a polygon set that satisfies the invariant, every draw of the
    generator gives a polygon set that satisfies it: when the two bounds
    on the side count differ. *)
Lemma changes_keeps_clamped (shapes : list (list Z)) (points : list Z) (colors : list rgba)
    (d : draw) :
  clamped n_shapes min_points max_points width height (shapes, points, colors) →
  drawn n_shapes max_points width height points d = true →
  ∃ p, changes min_points max_points width height shapes points colors d = Some p ∧
       clamped n_shapes min_points max_points width height p.
Proof.
  intros (Hls & Hlp & Hlc & Hshapes & Hpoints & Hcolors) Hdrawn.
  destruct d as [i f]. unfold drawn in Hdrawn. cbn [func index] in Hdrawn.
  apply andb_true_iff in Hdrawn as [Hi Hdrawn]. apply bool_decide_eq_true in Hi.
  destruct (lookup_lt_is_Some_2 shapes i) as [row Hrow]; [lia |].
  destruct (lookup_lt_is_Some_2 points i) as [n Hn]; [lia |].
  destruct (lookup_lt_is_Some_2 colors i) as [[[[r g] b] a] Hc]; [lia |].
  destruct (Forall_lookup_1 _ _ _ _ Hshapes Hrow) as [Hrowlen Hwithin].
  pose proof (Forall_lookup_1 _ _ _ _ Hpoints Hn) as Hnrange. cbn beta in Hnrange.
  destruct (Forall_lookup_1 _ _ _ _ Hcolors Hc) as (Hr & Hg & Hb & Ha). cbn in Hr, Hg, Hb, Ha.
  unfold changes. cbn [func index].
  destruct f as [[dx dy] choice | [dx dy] | shuffle | choice | [[dr dg] db] | da].
  - (* point *)
    rewrite !andb_true_iff, bool_decide_eq_true in Hdrawn. destruct Hdrawn as [_ Hchoice].
    destruct (lookup_lt_is_Some_2 row (choice * 2)) as [x Hx]; [lia |].
    destruct (lookup_lt_is_Some_2 row (S (choice * 2))) as [y Hy]; [lia |].
    unfold point. rewrite Hrow. cbn [mbind option_bind].
    rewrite Hx. cbn [mbind option_bind]. rewrite Hy. cbn [mbind option_bind fst snd].
    eexists. split; [reflexivity |].
    repeat split; try assumption; [rewrite length_insert; exact Hls |].
    apply Forall_insert; [exact Hshapes |].
    split; [rewrite !length_insert; exact Hrowlen |].
    apply point_keeps_within; [exact Hwithin | | reflexivity].
    rewrite Nat.mul_comm. apply Nat.even_even.
  - (* shape *)
    destruct (shape_row_within row dx dy Hrowlen) as (row' & Hrow' & Hlen' & Hwithin').
    unfold shape. rewrite Hrow. cbn [mbind option_bind fst snd].
    cbn [mbind option_bind] in Hrow'.
    destruct (broadcast Z.add row _) as [moved |]; [| discriminate].
    cbn [mbind option_bind] in *.
    destruct (broadcast _ moved _) as [clipped |]; [| discriminate].
    cbn [mbind option_bind] in *. rewrite Hrow'. cbn [mbind option_bind].
    eexists. split; [reflexivity |].
    repeat split; try assumption; [rewrite length_insert; exact Hls |].
    apply Forall_insert; [exact Hshapes |]. split; [congruence | exact Hwithin'].
  - (* order *)
    rewrite Hn in Hdrawn. rewrite andb_true_iff, !bool_decide_eq_true in Hdrawn.
    destruct Hdrawn as [Hpos Hperm].
    destruct (row_split row (Z.to_nat n)) as (xs & ys & inert & Hx & Hy & ->); [lia |].
    rewrite (order_row shapes points colors i shuffle n xs ys inert) by assumption.
    eexists. split; [reflexivity |].
    assert (length shuffle = Z.to_nat n) as Hs by (rewrite Hperm, length_seq; reflexivity).
    pose proof (shuffle_in_range shuffle _ Hperm) as Hrange.
    apply within_interleave_app in Hwithin as (Hxs & Hys & Hinert); [| lia].
    repeat split; try assumption; [rewrite length_insert; exact Hls |].
    apply Forall_insert; [exact Hshapes |]. split.
    + rewrite length_app in Hrowlen. rewrite interleave_length in Hrowlen by lia.
      rewrite length_app, interleave_length by (rewrite !length_fmap; lia).
      rewrite length_fmap. lia.
    + apply within_interleave_app; [rewrite !length_fmap; reflexivity |].
      split; [| split; [| exact Hinert]].
      * apply Forall_fancy; [exact Hxs | rewrite Hx; exact Hrange].
      * apply Forall_fancy; [exact Hys | rewrite Hy; exact Hrange].
  - (* number *)
    apply bool_decide_eq_true in Hdrawn.
    eexists. split; [apply (number_result _ _ _ _ _ _ _ _ Hn) |].
    repeat split; try assumption; [rewrite length_insert; exact Hlp |].
    apply Forall_insert; [exact Hpoints |].
    destruct (Z.eqb_spec n min_points); [lia |].
    destruct (Z.eqb_spec n max_points); lia.
  - (* color *)
    eexists. split; [apply (color_channels _ _ _ _ _ _ _ _ _ _ _ Hc) |].
    repeat split; try assumption; [rewrite length_insert; exact Hlc |].
    apply Forall_insert; [exact Hcolors |].
    repeat split; cbn; try (rewrite <- uint8_clip_256; apply uint8_byte);
      unfold byte in *; lia.
  - (* alpha *)
    eexists. split; [apply (alpha_channel _ _ _ _ _ _ _ _ _ Hc) |].
    repeat split; try assumption; [rewrite length_insert; exact Hlc |].
    apply Forall_insert; [exact Hcolors |].
    repeat split; cbn; try (rewrite <- uint8_clip_256; apply uint8_byte);
      unfold byte in *; lia.
Qed.

End Clamping.

(** The initial polygon set satisfies the invariant. *)
Lemma initialize_clamped (n_shapes : nat) (min_points max_points width height : Z)
    (xs ys : list (list Z)) (cs : list rgba) (p : polygons) :
  min_points ≤ max_points →
  randint_array width n_shapes (Z.to_nat max_points) xs = true →
  randint_array height n_shapes (Z.to_nat max_points) ys = true →
  randint_colors n_shapes cs = true →
  initialize n_shapes min_points max_points width height xs ys cs = Some p →
  clamped n_shapes min_points max_points width height p.
Proof.
  intros Hle Hxs Hys Hcs Hinit.
  destruct (initialize_rows max_points width height n_shapes xs ys Hxs Hys) as [Hsl Hrows].
  apply randint_colors_spec in Hcs as [Hcl Hcs].
  unfold initialize in Hinit. destruct (_ && _); [| discriminate].
  injection Hinit as <-. unfold clamped.
  split; [exact Hsl |]. split; [apply length_replicate |]. split; [exact Hcl |].
  split; [| split; [apply Forall_replicate; lia | exact Hcs]].
  apply (Forall_impl _ _ _ Hrows). intros row [Hlen Hwithin].
  split; [exact Hlen |]. intros i v Hi. specialize (Hwithin i v Hi).
  destruct (Nat.even i); lia.
Qed.

(** X10: when the bounds on the side count differ, every reachable polygon
    set (the initial one and any one the mutator makes from it with draws
    of the generator) satisfies the invariant: [n_shapes] polygons of
    [max_points] stored pairs inside the canvas, side counts within the
    bounds, colour channels in [[0, 255]]. *)
Lemma reachable_clamped (n_shapes : nat) (min_points max_points width height : Z)
    (p : polygons) :
  0 ≤ min_points → min_points < max_points → 0 ≤ width → 0 ≤ height →
  reachable n_shapes min_points max_points width height p →
  clamped n_shapes min_points max_points width height p.
Proof.
  intros Hmin Hlt Hw Hh Hreach.
  induction Hreach as [xs ys cs p Hxs Hys Hcs Hinit | shapes points colors d p _ IH Hd Hp].
  - apply (initialize_clamped n_shapes min_points max_points width height xs ys cs);
      [lia | assumption..].
  - destruct (changes_keeps_clamped n_shapes min_points max_points width height
                Hlt Hmin Hw Hh shapes points colors d IH Hd) as (p' & Hp' & Hclamped).
    congruence.
Qed.

(** C2 at the failing input, [min_points = max_points = 3]: the initial
    triangle is within the bounds, one [number] proposal gives it four
    sides, past [max_points], and the reached polygon set breaks the
    invariant; [order] then raises on it. *)
Lemma sides_exceed_max_points_at_equal_bounds :
  reachable 1 3 3 10 10 ([[2; 2; 8; 2; 5; 8]], [3], [(255, 255, 255, 255)]) ∧
  changes 3 3 10 10 [[2; 2; 8; 2; 5; 8]] [3] [(255, 255, 255, 255)]
          {| index := 0; func := Number 1 |}
    = Some ([[2; 2; 8; 2; 5; 8]], [4], [(255, 255, 255, 255)]) ∧
  reachable 1 3 3 10 10 ([[2; 2; 8; 2; 5; 8]], [4], [(255, 255, 255, 255)]) ∧
  ¬ clamped 1 3 3 10 10 ([[2; 2; 8; 2; 5; 8]], [4], [(255, 255, 255, 255)]) ∧
  drawn 1 3 10 10 [4] {| index := 0; func := Order [3; 1; 0; 2]%nat |} = true ∧
  changes 3 3 10 10 [[2; 2; 8; 2; 5; 8]] [4] [(255, 255, 255, 255)]
          {| index := 0; func := Order [3; 1; 0; 2]%nat |} = None.
Proof.
  assert (reachable 1 3 3 10 10 ([[2; 2; 8; 2; 5; 8]], [3], [(255, 255, 255, 255)])) as H3.
  { apply (reachable_initial 1 3 3 10 10 [[2; 8; 5]] [[2; 2; 8]] [(255, 255, 255, 255)]);
      reflexivity. }
  split; [exact H3 |]. split; [reflexivity |]. split.
  { apply (reachable_changes 1 3 3 10 10 _ _ _ {| index := 0; func := Number 1 |} _ H3);
      reflexivity. }
  split.
  { intros (_ & _ & _ & _ & Hpoints & _). apply Forall_cons in Hpoints as [Hn _]. lia. }
  split; [vm_compute; reflexivity | reflexivity].
Qed.

(** ** Frame of the operators *)

Section Frame.

Variables (min_points max_points width height : Z).

(** Each operator rewrites one entry of one container. *)
Lemma point_frame shapes points colors index change choice p :
  point width height shapes points colors index change choice = Some p →
  ∃ row, p = (<[index := row]> shapes, points, colors).
Proof. unfold point. intros H. simplify_option_eq. eexists. reflexivity. Qed.

Lemma shape_frame shapes points colors index change p :
  shape max_points width height shapes points colors index change = Some p →
  ∃ row, p = (<[index := row]> shapes, points, colors).
Proof. unfold shape. intros H. simplify_option_eq. eexists. reflexivity. Qed.

Lemma order_frame shapes points colors index shuffle p :
  order shapes points colors index shuffle = Some p →
  ∃ row, p = (<[index := row]> shapes, points, colors).
Proof.
  unfold order. intros H.
  destruct (points !! index) as [n |]; [| discriminate]. cbn [mbind option_bind] in H.
  destruct (n <? 0); [discriminate |].
  simplify_option_eq. eexists. reflexivity.
Qed.

Lemma number_frame shapes points colors index choice p :
  number min_points max_points shapes points colors index choice = Some p →
  ∃ n, p = (shapes, <[index := n]> points, colors).
Proof. unfold number. intros H. simplify_option_eq. eexists. reflexivity. Qed.

Lemma color_frame shapes points colors index change p :
  color shapes points colors index change = Some p →
  ∃ c, p = (shapes, points, <[index := c]> colors).
Proof.
  unfold color. intros H.
  destruct (colors !! index) as [[[[r g] b] a] |]; [| discriminate].
  destruct change as [[dr dg] db]. cbn in H. injection H as <-. eexists. reflexivity.
Qed.

Lemma alpha_frame shapes points colors index change p :
  alpha shapes points colors index change = Some p →
  ∃ c, p = (shapes, points, <[index := c]> colors).
Proof.
  unfold alpha. intros H.
  destruct (colors !! index) as [[[[r g] b] a] |]; [| discriminate].
  cbn in H. injection H as <-. eexists. reflexivity.
Qed.

End Frame.

(** ** The operators on references *)

Lemma load_Some (h : heap) (shapes points colors : nat) (p : polygons) :
  load h (shapes, points, colors) = Some p ↔
  h !! shapes = Some (Ints2 p.1.1) ∧ h !! points = Some (Ints1 p.1.2) ∧
  h !! colors = Some (Bytes2 p.2).
Proof.
  unfold load. destruct p as [[s n] c]. cbn [fst snd]. split.
  - intros H. repeat case_match; simplify_eq. repeat split; reflexivity.
  - intros (-> & -> & ->). reflexivity.
Qed.

Lemma lookup_snoc_old (h : heap) (a b : ndarray) (l : nat) :
  (h ++ [a]) !! l = Some b → l ≠ length h → h !! l = Some b.
Proof.
  intros H Hl. apply lookup_app_Some in H as [H | [Hge H]]; [exact H |].
  apply lookup_lt_Some in H. cbn in H. lia.
Qed.

Lemma snoc_insert_last (h : heap) (a b : ndarray) : <[length h := b]> (h ++ [a]) = h ++ [b].
Proof. rewrite insert_app_r_alt by lia. rewrite Nat.sub_diag. reflexivity. Qed.

(** What an operator that copies one array does to the store: the arrays
    of the polygon set it is given exist, the store gets one new array at
    the end, the copy with the operator's writes, and nothing else. *)
Lemma on_copy_spec (which : container) (op : polygons → option polygons)
    (shapes points colors : nat) (h : heap) (r' : refs) (h' : heap) :
  on_copy which op (shapes, points, colors) h = Some (r', h') →
  ∃ p q,
    load h (shapes, points, colors) = Some p ∧ op p = Some q ∧
    match which with
    | Shapes => r' = (length h, points, colors) ∧ h' = h ++ [Ints2 q.1.1]
    | Points => r' = (shapes, length h, colors) ∧ h' = h ++ [Ints1 q.1.2]
    | Colors => r' = (shapes, points, length h) ∧ h' = h ++ [Bytes2 q.2]
    end.
Proof.
  intros H. unfold on_copy, copy in H. destruct which.
  - destruct (h !! shapes) as [a |] eqn:Ha; [| discriminate].
    cbn [mbind option_bind] in H.
    destruct (load _ _) as [p |] eqn:Hl; [| discriminate]. cbn [mbind option_bind] in H.
    destruct (op p) as [[[s n] c] |] eqn:Hop; [| discriminate]. cbn in H.
    injection H as <- <-.
    apply load_Some in Hl as (Hs & Hn & Hc).
    rewrite list_lookup_middle in Hs by reflexivity. injection Hs as ->.
    assert (points ≠ length h) as Hpn.
    { intros ->. rewrite list_lookup_middle in Hn by reflexivity. discriminate. }
    assert (colors ≠ length h) as Hcn.
    { intros ->. rewrite list_lookup_middle in Hc by reflexivity. discriminate. }
    apply lookup_snoc_old in Hn, Hc; try assumption.
    exists p, (s, n, c). split; [apply load_Some; auto |]. split; [exact Hop |].
    split; [reflexivity | apply snoc_insert_last].
  - destruct (h !! points) as [a |] eqn:Ha; [| discriminate].
    cbn [mbind option_bind] in H.
    destruct (load _ _) as [p |] eqn:Hl; [| discriminate]. cbn [mbind option_bind] in H.
    destruct (op p) as [[[s n] c] |] eqn:Hop; [| discriminate]. cbn in H.
    injection H as <- <-.
    apply load_Some in Hl as (Hs & Hn & Hc).
    rewrite list_lookup_middle in Hn by reflexivity. injection Hn as ->.
    assert (shapes ≠ length h) as Hsn.
    { intros ->. rewrite list_lookup_middle in Hs by reflexivity. discriminate. }
    assert (colors ≠ length h) as Hcn.
    { intros ->. rewrite list_lookup_middle in Hc by reflexivity. discriminate. }
    apply lookup_snoc_old in Hs, Hc; try assumption.
    exists p, (s, n, c). split; [apply load_Some; auto |]. split; [exact Hop |].
    split; [reflexivity | apply snoc_insert_last].
  - destruct (h !! colors) as [a |] eqn:Ha; [| discriminate].
    cbn [mbind option_bind] in H.
    destruct (load _ _) as [p |] eqn:Hl; [| discriminate]. cbn [mbind option_bind] in H.
    destruct (op p) as [[[s n] c] |] eqn:Hop; [| discriminate]. cbn in H.
    injection H as <- <-.
    apply load_Some in Hl as (Hs & Hn & Hc).
    rewrite list_lookup_middle in Hc by reflexivity. injection Hc as ->.
    assert (shapes ≠ length h) as Hsn.
    { intros ->. rewrite list_lookup_middle in Hs by reflexivity. discriminate. }
    assert (points ≠ length h) as Hpn.
    { intros ->. rewrite list_lookup_middle in Hn by reflexivity. discriminate. }
    apply lookup_snoc_old in Hs, Hn; try assumption.
    exists p, (s, n, c). split; [apply load_Some; auto |]. split; [exact Hop |].
    split; [reflexivity | apply snoc_insert_last].
Qed.

(** C8, as amended: an operator application leaves every array of the
    store as it was (the input polygon set is unmodified), returns exactly
    one reference to a new array, the copy, and passes the other two
    references through; the content of the returned polygon set is the one
    [changes] computes, it has the lengths of the input and differs from it
    in at most one container, and there in at most the entry of the target
    polygon. *)
Theorem changes_ref_copies_one_array (min_points max_points width height : Z)
    (shapes points colors : nat) (d : draw) (h : heap) (r' : refs) (h' : heap) :
  changes_ref min_points max_points width height (shapes, points, colors) d h
    = Some (r', h') →
  ∃ p p',
    load h (shapes, points, colors) = Some p ∧
    (∀ l a, h !! l = Some a → h' !! l = Some a) ∧
    load h' (shapes, points, colors) = Some p ∧
    h !! length h = None ∧
    (r' = (length h, points, colors) ∧ shapes ≠ length h ∨
     r' = (shapes, length h, colors) ∧ points ≠ length h ∨
     r' = (shapes, points, length h) ∧ colors ≠ length h) ∧
    load h' r' = Some p' ∧
    changes min_points max_points width height p.1.1 p.1.2 p.2 d = Some p' ∧
    (p'.1.2 = p.1.2 ∧ p'.2 = p.2 ∨ p'.1.1 = p.1.1 ∧ p'.2 = p.2 ∨
     p'.1.1 = p.1.1 ∧ p'.1.2 = p.1.2) ∧
    length p'.1.1 = length p.1.1 ∧ length p'.1.2 = length p.1.2 ∧
    length p'.2 = length p.2 ∧
    ∀ j, j ≠ index d →
         p'.1.1 !! j = p.1.1 !! j ∧ p'.1.2 !! j = p.1.2 !! j ∧ p'.2 !! j = p.2 !! j.
Proof.
  intros H.
  assert (∃ which p q,
            on_copy which
              (λ '(s, n, c), changes min_points max_points width height s n c d)
              (shapes, points, colors) h = Some (r', h') ∧
            load h (shapes, points, colors) = Some p ∧
            changes min_points max_points width height p.1.1 p.1.2 p.2 d = Some q ∧
            match which with
            | Shapes => ∃ row, q = (<[index d := row]> p.1.1, p.1.2, p.2)
            | Points => ∃ n, q = (p.1.1, <[index d := n]> p.1.2, p.2)
            | Colors => ∃ c, q = (p.1.1, p.1.2, <[index d := c]> p.2)
            end) as (which & p & q & Hcopy & Hload & Hq & Hframe).
  { unfold changes_ref, changes in *.
    destruct (func d) as [change choice | change | shuffle | choice | change | change];
      [exists Shapes | exists Shapes | exists Shapes | exists Points
       | exists Colors | exists Colors];
      pose proof (on_copy_spec _ _ _ _ _ _ _ _ H) as (p & q & Hload & Hq & _);
      destruct p as [[s n] c]; exists (s, n, c), q;
      (split; [exact H |]); (split; [exact Hload |]); (split; [exact Hq |]); cbn [fst snd].
    - apply (point_frame _ _ _ _ _ _ _ _ _ Hq).
    - apply (shape_frame _ _ _ _ _ _ _ _ _ Hq).
    - apply (order_frame _ _ _ _ _ _ Hq).
    - apply (number_frame _ _ _ _ _ _ _ _ Hq).
    - apply (color_frame _ _ _ _ _ _ Hq).
    - apply (alpha_frame _ _ _ _ _ _ Hq). }
  apply on_copy_spec in Hcopy as (p0 & q0 & Hload0 & Hq0 & Hwhich).
  rewrite Hload in Hload0. injection Hload0 as <-.
  destruct p as [[s n] c]. cbn [fst snd] in *. rewrite Hq in Hq0. injection Hq0 as <-.
  pose proof Hload as Hrefs. apply load_Some in Hrefs as (Hs & Hn & Hc). cbn [fst snd] in *.
  assert (h !! length h = None) as Hfresh by (apply lookup_ge_None; lia).
  assert (shapes ≠ length h) as Hsn by congruence.
  assert (points ≠ length h) as Hpn by congruence.
  assert (colors ≠ length h) as Hcn by congruence.
  exists (s, n, c), q. cbn [fst snd].
  assert (∀ b, ∀ l a, h !! l = Some a → (h ++ [b]) !! l = Some a) as Hold.
  { intros b l a Hl. apply lookup_app_l_Some. exact Hl. }
  destruct which.
  - destruct Hwhich as [-> ->], Hframe as [row ->]. cbn [fst snd].
    split; [exact Hload |]. split; [apply Hold |].
    split; [apply load_Some; repeat split; apply Hold; assumption |].
    split; [exact Hfresh |]. split; [left; split; [reflexivity | exact Hsn] |].
    split.
    { apply load_Some. cbn [fst snd].
      split; [apply list_lookup_middle; reflexivity |]. split; apply Hold; assumption. }
    split; [exact Hq |]. split; [left; split; reflexivity |].
    split; [apply length_insert |]. split; [reflexivity |]. split; [reflexivity |].
    intros j Hj. split; [apply list_lookup_insert_ne; congruence | split; reflexivity].
  - destruct Hwhich as [-> ->], Hframe as [m ->]. cbn [fst snd].
    split; [exact Hload |]. split; [apply Hold |].
    split; [apply load_Some; repeat split; apply Hold; assumption |].
    split; [exact Hfresh |]. split; [right; left; split; [reflexivity | exact Hpn] |].
    split.
    { apply load_Some. cbn [fst snd].
      split; [apply Hold; assumption |].
      split; [apply list_lookup_middle; reflexivity | apply Hold; assumption]. }
    split; [exact Hq |]. split; [right; left; split; reflexivity |].
    split; [reflexivity |]. split; [apply length_insert |]. split; [reflexivity |].
    intros j Hj.
    split; [reflexivity | split; [apply list_lookup_insert_ne; congruence | reflexivity]].
  - destruct Hwhich as [-> ->], Hframe as [k ->]. cbn [fst snd].
    split; [exact Hload |]. split; [apply Hold |].
    split; [apply load_Some; repeat split; apply Hold; assumption |].
    split; [exact Hfresh |]. split; [right; right; split; [reflexivity | exact Hcn] |].
    split.
    { apply load_Some. cbn [fst snd].
      split; [apply Hold; assumption |].
      split; [apply Hold; assumption | apply list_lookup_middle; reflexivity]. }
    split; [exact Hq |]. split; [right; right; split; reflexivity |].
    split; [reflexivity |]. split; [reflexivity |]. split; [apply length_insert |].
    intros j Hj.
    split; [reflexivity | split; [reflexivity | apply list_lookup_insert_ne; congruence]].
Qed.

Lemma changes_ref_copies_one_array_witness :
  ∃ p p',
    load [Ints2 [[2; 2; 8; 2; 5; 8]]; Ints1 [3]; Bytes2 [(200, 5, 200, 255)]]
         (0, 1, 2)%nat = Some p ∧
    (∀ l a, [Ints2 [[2; 2; 8; 2; 5; 8]]; Ints1 [3]; Bytes2 [(200, 5, 200, 255)]] !! l = Some a →
            [Ints2 [[2; 2; 8; 2; 5; 8]]; Ints1 [3]; Bytes2 [(200, 5, 200, 255)];
             Bytes2 [(0, 5, 0, 255)]] !! l = Some a) ∧
    load [Ints2 [[2; 2; 8; 2; 5; 8]]; Ints1 [3]; Bytes2 [(200, 5, 200, 255)];
          Bytes2 [(0, 5, 0, 255)]] (0, 1, 2)%nat = Some p ∧
    [Ints2 [[2; 2; 8; 2; 5; 8]]; Ints1 [3]; Bytes2 [(200, 5, 200, 255)]] !! 3%nat = None ∧
    ((0, 1, 3)%nat = (3, 1, 2)%nat ∧ 0%nat ≠ 3%nat ∨
     (0, 1, 3)%nat = (0, 3, 2)%nat ∧ 1%nat ≠ 3%nat ∨
     (0, 1, 3)%nat = (0, 1, 3)%nat ∧ 2%nat ≠ 3%nat) ∧
    load [Ints2 [[2; 2; 8; 2; 5; 8]]; Ints1 [3]; Bytes2 [(200, 5, 200, 255)];
          Bytes2 [(0, 5, 0, 255)]] (0, 1, 3)%nat = Some p' ∧
    changes 3 3 10 10 p.1.1 p.1.2 p.2 {| index := 0; func := Color (56, 0, 100) |}
      = Some p' ∧
    (p'.1.2 = p.1.2 ∧ p'.2 = p.2 ∨ p'.1.1 = p.1.1 ∧ p'.2 = p.2 ∨
     p'.1.1 = p.1.1 ∧ p'.1.2 = p.1.2) ∧
    length p'.1.1 = length p.1.1 ∧ length p'.1.2 = length p.1.2 ∧
    length p'.2 = length p.2 ∧
    ∀ j, j ≠ 0%nat →
         p'.1.1 !! j = p.1.1 !! j ∧ p'.1.2 !! j = p.1.2 !! j ∧ p'.2 !! j = p.2 !! j.
Proof.
  apply (changes_ref_copies_one_array 3 3 10 10 0 1 2
           {| index := 0; func := Color (56, 0, 100) |}
           [Ints2 [[2; 2; 8; 2; 5; 8]]; Ints1 [3]; Bytes2 [(200, 5, 200, 255)]]
           (0, 1, 3)%nat
           [Ints2 [[2; 2; 8; 2; 5; 8]]; Ints1 [3]; Bytes2 [(200, 5, 200, 255)];
            Bytes2 [(0, 5, 0, 255)]]).
  vm_compute. reflexivity.
Defined.

(** C8, as stated, at the colour offsets (0, 0, 0), which the generator can
    draw: the returned [colors] is a new array, and the three containers of
    the returned polygon set have the content of the input, so none of them
    differs. *)
Lemma null_draw_changes_no_container :
  drawn 1 3 10 10 [3] {| index := 0; func := Color (0, 0, 0) |} = true ∧
  changes 3 3 10 10 [[2; 2; 8; 2; 5; 8]] [3] [(200, 5, 200, 255)]
          {| index := 0; func := Color (0, 0, 0) |}
    = Some ([[2; 2; 8; 2; 5; 8]], [3], [(200, 5, 200, 255)]) ∧
  changes_ref 3 3 10 10 (0, 1, 2)%nat {| index := 0; func := Color (0, 0, 0) |}
              [Ints2 [[2; 2; 8; 2; 5; 8]]; Ints1 [3]; Bytes2 [(200, 5, 200, 255)]]
    = Some ((0, 1, 3)%nat,
            [Ints2 [[2; 2; 8; 2; 5; 8]]; Ints1 [3]; Bytes2 [(200, 5, 200, 255)];
             Bytes2 [(200, 5, 200, 255)]]) ∧
  load [Ints2 [[2; 2; 8; 2; 5; 8]]; Ints1 [3]; Bytes2 [(200, 5, 200, 255)];
        Bytes2 [(200, 5, 200, 255)]] (0, 1, 3)%nat
    = load [Ints2 [[2; 2; 8; 2; 5; 8]]; Ints1 [3]; Bytes2 [(200, 5, 200, 255)]] (0, 1, 2)%nat.
Proof. repeat split; vm_compute; reflexivity. Qed.

(** * Further properties of the scorer *)

Lemma int32_0 : int32 0 = 0.
Proof. reflexivity. Qed.

Lemma sum_zeros (l : list Z) : Forall (λ d, d = 0) l → sum l = 0.
Proof. intros H. induction H as [| d l -> _ IH]; [reflexivity |]. cbn. exact IH. Qed.

Lemma subtract_self_zeros (pa : list pixel) :
  Forall (λ d, d = 0)
    (map (λ d, int32 (Z.abs (int32 d)))
       (mjoin (zip_with (λ p q : pixel, [p.1.1 - q.1.1; p.1.2 - q.1.2; p.2 - q.2]) pa pa))).
Proof.
  induction pa as [| p pa IH]; [constructor |].
  cbn -[int32 Z.abs Z.sub]. rewrite !Z.sub_diag.
  repeat constructor. exact IH.
Qed.

(** X1: a raster compared with itself has absolute error 0, whatever its
    shape and its channel values. *)
Theorem error_abs_self (a : raster) : error_abs a a = Some 0.
Proof.
  unfold error_abs. destruct (decide _) as [_ | Hne]; [| contradiction].
  unfold subtract. rewrite (sum_zeros _ (subtract_self_zeros (mjoin a))). reflexivity.
Qed.

(** The [int32] absolute value of a difference does not depend on the
    order of the operands, overflow included. *)
Lemma int32_abs_opp (d : Z) : Z.abs (int32 (- d)) = Z.abs (int32 d).
Proof.
  unfold int32, wrap_signed.
  change (2 ^ (32 - 1)) with 2147483648. change (2 ^ 32) with 4294967296.
  pose proof (Z.mod_pos_bound (d + 2147483648) 4294967296 ltac:(lia)) as Hm.
  pose proof (Z.div_mod (d + 2147483648) 4294967296 ltac:(lia)) as Hd.
  set (m := (d + 2147483648) mod 4294967296) in *.
  set (q := (d + 2147483648) / 4294967296) in *.
  destruct (decide (m = 0)) as [Hz | Hnz].
  - replace (- d + 2147483648) with ((- q + 1) * 4294967296) by lia.
    rewrite Z.mod_mul by lia. lia.
  - replace (- d + 2147483648) with ((4294967296 - m) + (- q) * 4294967296) by lia.
    rewrite Z.mod_add by lia. rewrite Z.mod_small by lia. lia.
Qed.

Lemma subtract_swap (pa pb : list pixel) :
  map (λ d, int32 (Z.abs (int32 d)))
      (mjoin (zip_with (λ p q : pixel, [p.1.1 - q.1.1; p.1.2 - q.1.2; p.2 - q.2]) pa pb))
  = map (λ d, int32 (Z.abs (int32 d)))
      (mjoin (zip_with (λ p q : pixel, [p.1.1 - q.1.1; p.1.2 - q.1.2; p.2 - q.2]) pb pa)).
Proof.
  revert pb. induction pa as [| p pa IH]; intros [| q pb]; try reflexivity.
  cbn -[int32 Z.abs Z.sub].
  replace (p.1.1 - q.1.1) with (- (q.1.1 - p.1.1)) by lia.
  replace (p.1.2 - q.1.2) with (- (q.1.2 - p.1.2)) by lia.
  replace (p.2 - q.2) with (- (q.2 - p.2)) by lia.
  rewrite !int32_abs_opp. do 3 f_equal. apply IH.
Qed.

(** X2: [error_abs] is symmetric on rasters of one shape: both orders
    return the same number, the wrap-around of the 32-bit difference
    included. *)
Theorem error_abs_symmetric (a b : raster) (h w : nat) :
  has_shape h w a → has_shape h w b →
  ∃ e, error_abs a b = Some e ∧ error_abs b a = Some e.
Proof.
  intros Ha Hb. unfold error_abs, subtract.
  rewrite (has_shape_lengths _ _ _ Ha), (has_shape_lengths _ _ _ Hb).
  destruct (decide (replicate h w = replicate h w)) as [_ | Hne]; [| contradiction].
  eexists. split; [reflexivity |].
  rewrite subtract_swap. reflexivity.
Qed.

Lemma error_abs_symmetric_witness :
  ∃ e, error_abs [[(0, 0, 0); (255, 255, 255)]] [[(255, 0, 10); (255, 255, 255)]] = Some e ∧
       error_abs [[(255, 0, 10); (255, 255, 255)]] [[(0, 0, 0); (255, 255, 255)]] = Some e.
Proof.
  apply (error_abs_symmetric _ _ 1 2); split; [reflexivity | repeat constructor ..].
Defined.

Lemma sum_abs_zero (pa pb : list pixel) :
  Forall byte_pixel pa → Forall byte_pixel pb → length pa = length pb →
  sum (map (λ d, int32 (Z.abs (int32 d)))
           (mjoin (zip_with (λ p q : pixel, [p.1.1 - q.1.1; p.1.2 - q.1.2; p.2 - q.2]) pa pb)))
    = 0 →
  pa = pb.
Proof.
  intros Ha. revert pb. induction Ha as [| p pa Hp Ha IH]; intros pb Hb Hlen Hsum.
  - destruct pb; [reflexivity | discriminate].
  - destruct Hb as [| q pb Hq Hb]; [discriminate |].
    pose proof (sum_abs_bounds pa pb Ha Hb) as [Hrest _].
    destruct p as [[pr pg] pbl], q as [[qr qg] qbl].
    destruct Hp as (? & ? & ?), Hq as (? & ? & ?). unfold byte in *. cbn [fst snd] in *.
    cbn -[int32 Z.abs Z.sub] in Hsum. unfold sum in Hrest.
    rewrite !(int32_small (_ - _)) in Hsum by lia.
    rewrite !int32_small in Hsum by lia.
    set (t := foldr Z.add 0 _) in *.
    assert (t = 0) as Ht by lia.
    f_equal; [repeat f_equal; lia |].
    apply IH; [exact Hb | cbn in Hlen; lia | exact Ht].
Qed.

Lemma mjoin_same_rows {A} (a b : list (list A)) :
  map length a = map length b → mjoin a = mjoin b → a = b.
Proof.
  revert b. induction a as [| r a IH]; intros [| r' b] Hlen Hjoin; try discriminate;
    [reflexivity |].
  cbn in Hlen, Hjoin. injection Hlen as Hr Hrest.
  apply app_inj_1 in Hjoin as [-> Hjoin]; [| exact Hr].
  f_equal. apply IH; assumption.
Qed.

(** X3: on rasters of one shape with channels in [[0, 255]], the absolute
    error is 0 exactly when the two rasters are equal. *)
Theorem error_abs_zero_iff_equal (a b : raster) (h w : nat) :
  has_shape h w a → has_shape h w b → byte_raster a → byte_raster b →
  765 * Z.of_nat h * Z.of_nat w < 2 ^ 63 →
  error_abs a b = Some 0 ↔ a = b.
Proof.
  intros Ha Hb Hba Hbb Hsize. split.
  2:{ intros ->. unfold error_abs. destruct (decide _) as [_ | Hne]; [| contradiction].
      unfold subtract. rewrite (sum_zeros _ (subtract_self_zeros (mjoin b))). reflexivity. }
  intros Herr.
  assert (map length a = map length b) as Hrows
    by (rewrite (has_shape_lengths _ _ _ Ha), (has_shape_lengths _ _ _ Hb); reflexivity).
  apply mjoin_same_rows; [exact Hrows |].
  pose proof (sum_abs_bounds _ _ (byte_raster_flat _ Hba) (byte_raster_flat _ Hbb)) as Hs.
  rewrite (has_shape_flat _ _ _ Ha) in Hs.
  apply sum_abs_zero;
    [apply byte_raster_flat; exact Hba | apply byte_raster_flat; exact Hbb | |].
  - rewrite (has_shape_flat _ _ _ Ha), (has_shape_flat _ _ _ Hb). reflexivity.
  - unfold error_abs in Herr. destruct (decide _); [| discriminate].
    injection Herr as Herr. unfold subtract in Herr.
    change (2 ^ 63) with 9223372036854775808 in Hsize.
    rewrite int64_small in Herr by lia. exact Herr.
Qed.

Lemma error_abs_zero_iff_equal_witness :
  error_abs [[(1, 2, 3); (255, 0, 7)]] [[(1, 2, 3); (255, 0, 7)]] = Some 0 ↔
  [[(1, 2, 3); (255, 0, 7)]] = [[(1, 2, 3); (255, 0, 7)]].
Proof.
  apply (error_abs_zero_iff_equal _ _ 1 2);
    try (split; [reflexivity | repeat constructor]);
    try (repeat constructor; cbn; lia); reflexivity.
Defined.

(** * Further properties of the mutator *)

Lemma tile_pair_lookup_lt {A} (a b : A) (n : Z) (i : nat) :
  (i < Z.to_nat n * 2)%nat → tile [a; b] n !! i = Some (if Nat.even i then a else b).
Proof.
  intros Hi.
  destruct (lookup_lt_is_Some_2 (tile [a; b] n) i) as [v Hv];
    [rewrite tile_pair_length; exact Hi |].
  rewrite Hv. f_equal. apply (tile_pair_lookup a b n i v Hv).
Qed.

(** X4: [shape] translates every stored pair of the target polygon by the
    one drawn offset and clamps each x to [[0, width]] and each y to
    [[0, height]]; the other polygons, [points] and [colors] are returned
    as they are. *)
Theorem shape_translates_and_clamps (max_points width height : Z)
    (shapes : list (list Z)) (points : list Z) (colors : list rgba)
    (index : nat) (row : list Z) (dx dy : Z) :
  shapes !! index = Some row →
  length row = (Z.to_nat max_points * 2)%nat →
  ∃ row',
    shape max_points width height shapes points colors index (dx, dy)
      = Some (<[index := row']> shapes, points, colors) ∧
    length row' = length row ∧
    (∀ i v, row !! i = Some v →
            row' !! i = Some (if Nat.even i then clip (v + dx) 0 width
                              else clip (v + dy) 0 height)) ∧
    (∀ j, j ≠ index → <[index := row']> shapes !! j = shapes !! j).
Proof.
  intros Hrow Hlen.
  set (row' := zip_with (λ v hi, clip v 0 hi)
                 (zip_with Z.add row (tile [dx; dy] max_points))
                 (tile [width; height] max_points)).
  assert (length row' = length row) as Hlen'
    by (unfold row'; rewrite !length_zip_with, !tile_pair_length; lia).
  exists row'. split.
  { unfold shape. rewrite Hrow. cbn [mbind option_bind fst snd].
    rewrite broadcast_same_length by (rewrite tile_pair_length; lia).
    cbn [mbind option_bind]. unfold boundaries.
    rewrite broadcast_same_length by (rewrite length_zip_with, !tile_pair_length; lia).
    cbn [mbind option_bind]. fold row'.
    rewrite assign_row_same_length by exact Hlen'. reflexivity. }
  split; [exact Hlen' |]. split.
  - intros i v Hv. assert (i < Z.to_nat max_points * 2)%nat as Hi
      by (apply lookup_lt_Some in Hv; lia).
    unfold row'. rewrite !lookup_zip_with, Hv. cbn [mbind option_bind].
    rewrite !tile_pair_lookup_lt by exact Hi. cbn [mbind option_bind].
    destruct (Nat.even i); reflexivity.
  - intros j Hj. apply list_lookup_insert_ne. congruence.
Qed.

Lemma shape_translates_and_clamps_witness :
  ∃ row',
    shape 3 10 8 [[2; 2; 8; 2; 5; 7]] [3] [(9, 9, 9, 9)] 0 (4, -3)
      = Some (<[0%nat := row']> [[2; 2; 8; 2; 5; 7]], [3], [(9, 9, 9, 9)]) ∧
    length row' = length [2; 2; 8; 2; 5; 7] ∧
    (∀ i v, [2; 2; 8; 2; 5; 7] !! i = Some v →
            row' !! i = Some (if Nat.even i then clip (v + 4) 0 10
                              else clip (v + -3) 0 8)) ∧
    (∀ j, j ≠ 0%nat → <[0%nat := row']> [[2; 2; 8; 2; 5; 7]] !! j = [[2; 2; 8; 2; 5; 7]] !! j).
Proof.
  apply (shape_translates_and_clamps 3 10 8 [[2; 2; 8; 2; 5; 7]] [3] [(9, 9, 9, 9)] 0
           [2; 2; 8; 2; 5; 7] 4 (-3)); reflexivity.
Defined.

Lemma stored_channel_byte (v : Z) : byte (if 256 <=? v then 0 else clip v 0 255).
Proof. rewrite <- uint8_clip_256. apply uint8_byte. Qed.

(** X5: the colour operators write only their own channels of the target
    polygon: [color] keeps the alpha channel and [alpha] keeps R, G and B;
    a written channel holds the sum clamped to [[0, 255]] as long as the
    sum is at most 255, and 0 when the sum reaches 256; every channel of
    the result is in [[0, 255]]. *)
Theorem color_alpha_written_channels
    (shapes : list (list Z)) (points : list Z) (colors : list rgba)
    (index : nat) (r g b a dr dg db da : Z) :
  colors !! index = Some (r, g, b, a) →
  byte r → byte g → byte b → byte a →
  ∃ r' g' b' a',
    color shapes points colors index (dr, dg, db)
      = Some (shapes, points, <[index := (r', g', b', a)]> colors) ∧
    alpha shapes points colors index da
      = Some (shapes, points, <[index := (r, g, b, a')]> colors) ∧
    r' = (if 256 <=? r + dr then 0 else clip (r + dr) 0 255) ∧
    g' = (if 256 <=? g + dg then 0 else clip (g + dg) 0 255) ∧
    b' = (if 256 <=? b + db then 0 else clip (b + db) 0 255) ∧
    a' = (if 256 <=? a + da then 0 else clip (a + da) 0 255) ∧
    byte_color (r', g', b', a) ∧ byte_color (r, g, b, a').
Proof.
  intros Hc Hr Hg Hb Ha. do 4 eexists.
  split; [apply (color_channels _ _ _ _ _ _ _ _ _ _ _ Hc) |].
  split; [apply (alpha_channel _ _ _ _ _ _ _ _ _ Hc) |].
  do 4 (split; [reflexivity |]).
  split; unfold byte_color; cbn [fst snd];
    (repeat split; try apply stored_channel_byte; unfold byte in *; lia).
Qed.

Lemma color_alpha_written_channels_witness :
  ∃ r' g' b' a',
    color [[2; 2; 8; 2; 5; 8]] [3] [(200, 7, 90, 255)] 0 (56, -20, 100)
      = Some ([[2; 2; 8; 2; 5; 8]], [3], <[0%nat := (r', g', b', 255)]> [(200, 7, 90, 255)]) ∧
    alpha [[2; 2; 8; 2; 5; 8]] [3] [(200, 7, 90, 255)] 0 (-100)
      = Some ([[2; 2; 8; 2; 5; 8]], [3], <[0%nat := (200, 7, 90, a')]> [(200, 7, 90, 255)]) ∧
    r' = (if 256 <=? 200 + 56 then 0 else clip (200 + 56) 0 255) ∧
    g' = (if 256 <=? 7 + -20 then 0 else clip (7 + -20) 0 255) ∧
    b' = (if 256 <=? 90 + 100 then 0 else clip (90 + 100) 0 255) ∧
    a' = (if 256 <=? 255 + -100 then 0 else clip (255 + -100) 0 255) ∧
    byte_color (r', g', b', 255) ∧ byte_color (200, 7, 90, a').
Proof.
  apply (color_alpha_written_channels [[2; 2; 8; 2; 5; 8]] [3] [(200, 7, 90, 255)] 0
           200 7 90 255 56 (-20) 100 (-100)); [reflexivity | unfold byte; lia ..].
Defined.

(** * Further properties of the rasterizer and of the loop *)

Section ActivePrefix.

Variable covers : list Z → Z → Z → bool.
Variable thumbnail : Z → Z → raster → raster.

Lemma foldl_active_prefixes (scale : Z) (shapes : list (list Z)) (points : list Z)
    (colors : list rgba) (image : raster) :
  foldl (λ image '(shape, point, color),
           polygon covers (map (λ v, v * scale) (py_until (point * 2) shape)) color image)
        image (zip (zip shapes points) colors)
  = foldl (λ image '(active, color),
             polygon covers (map (λ v, v * scale) active) color image)
          image (zip (zip_with (λ shape point, py_until (point * 2) shape) shapes points)
                     colors).
Proof.
  revert points colors image.
  induction shapes as [| s shapes IH]; intros [| n points] [| c colors] image;
    try reflexivity.
  cbn [zip zip_with foldl]. apply IH.
Qed.

(** [draw_image] reads a polygon's row only up to its side count. *)
Lemma draw_image_active_prefixes (width height : Z) (shapes shapes' : list (list Z))
    (points : list Z) (colors : list rgba) (antialiasing : bool) :
  zip_with (λ shape point, py_until (point * 2) shape) shapes points
  = zip_with (λ shape point, py_until (point * 2) shape) shapes' points →
  draw_image covers thumbnail width height shapes points colors antialiasing
  = draw_image covers thumbnail width height shapes' points colors antialiasing.
Proof.
  intros H. unfold draw_image. rewrite !foldl_active_prefixes, H. reflexivity.
Qed.

Lemma active_prefixes_insert (shapes : list (list Z)) (points : list Z)
    (index : nat) (row row' : list Z) (n : Z) :
  shapes !! index = Some row → points !! index = Some n →
  py_until (n * 2) row' = py_until (n * 2) row →
  zip_with (λ shape point, py_until (point * 2) shape) (<[index := row']> shapes) points
  = zip_with (λ shape point, py_until (point * 2) shape) shapes points.
Proof.
  intros Hrow Hn Hsame. apply list_eq. intros j. rewrite !lookup_zip_with.
  destruct (decide (j = index)) as [-> | Hne].
  - rewrite list_lookup_insert_eq by (apply lookup_lt_Some in Hrow; exact Hrow).
    rewrite Hrow, Hn. cbn. rewrite Hsame. reflexivity.
  - rewrite list_lookup_insert_ne by congruence. reflexivity.
Qed.

(** X6: a [point] proposal on an inert pair (one at or past the side
    count) renders the same raster as the current polygon set, so on a
    state that holds its own render and score it is accepted as a tie:
    the stored coordinates change, the raster and the score do not. *)
Theorem inert_point_is_a_tie (min_points max_points width height : Z) (internal : raster)
    (shapes : list (list Z)) (points : list Z) (colors : list rgba)
    (index : nat) (row : list Z) (n : Z) (change : Z * Z) (choice : nat)
    (new_shapes : list (list Z)) (new_points : list Z) (new_colors : list rgba)
    (score : Z) :
  shapes !! index = Some row → points !! index = Some n →
  0 ≤ n ≤ Z.of_nat choice →
  point width height shapes points colors index change choice
    = Some (new_shapes, new_points, new_colors) →
  error_abs internal (draw_image covers thumbnail width height shapes points colors false)
    = Some score →
  draw_image covers thumbnail width height new_shapes new_points new_colors false
    = draw_image covers thumbnail width height shapes points colors false ∧
  iterate covers thumbnail min_points max_points width height internal
          (shapes, points, colors,
           draw_image covers thumbnail width height shapes points colors false, score)
          {| index := index; func := Point change choice |}
  = Some (new_shapes, new_points, new_colors,
          draw_image covers thumbnail width height shapes points colors false, score).
Proof.
  intros Hrow Hn Hinert Hpoint Hscore.
  assert (draw_image covers thumbnail width height new_shapes new_points new_colors false
          = draw_image covers thumbnail width height shapes points colors false) as Hsame.
  { unfold point in Hpoint. rewrite Hrow in Hpoint. cbn [mbind option_bind] in Hpoint.
    destruct (row !! (choice * 2)%nat) as [x |]; [| discriminate].
    cbn [mbind option_bind] in Hpoint.
    destruct (row !! S (choice * 2)) as [y |]; [| discriminate].
    cbn [mbind option_bind] in Hpoint. injection Hpoint as <- <- <-.
    apply draw_image_active_prefixes.
    apply (active_prefixes_insert shapes points index row _ n Hrow Hn).
    unfold py_until. destruct (Z.ltb_spec (n * 2) 0); [lia |].
    rewrite !take_insert_ge by lia. reflexivity. }
  split; [exact Hsame |].
  rewrite <- Hsame in Hscore.
  rewrite (iterate_candidate covers thumbnail min_points max_points width height internal
             shapes points colors _ score {| index := index; func := Point change choice |}
             new_shapes new_points new_colors score Hpoint Hscore).
  rewrite Z.leb_refl, Hsame. reflexivity.
Qed.

End ActivePrefix.

Lemma inert_point_is_a_tie_witness :
  draw_image even_odd keep_size 10 10 [[2; 2; 8; 2; 5; 8; 5; 0]] [3] [(0, 0, 0, 255)] false
    = draw_image even_odd keep_size 10 10 [[2; 2; 8; 2; 5; 8; 4; 4]] [3] [(0, 0, 0, 255)] false ∧
  iterate even_odd keep_size 3 4 10 10 (new_image 10 10)
          ([[2; 2; 8; 2; 5; 8; 4; 4]], [3], [(0, 0, 0, 255)],
           draw_image even_odd keep_size 10 10 [[2; 2; 8; 2; 5; 8; 4; 4]] [3]
                      [(0, 0, 0, 255)] false, 16065)
          {| index := 0; func := Point (1, -5) 3 |}
  = Some ([[2; 2; 8; 2; 5; 8; 5; 0]], [3], [(0, 0, 0, 255)],
          draw_image even_odd keep_size 10 10 [[2; 2; 8; 2; 5; 8; 4; 4]] [3]
                     [(0, 0, 0, 255)] false, 16065).
Proof.
  apply (inert_point_is_a_tie even_odd keep_size 3 4 10 10 (new_image 10 10)
           [[2; 2; 8; 2; 5; 8; 4; 4]] [3] [(0, 0, 0, 255)] 0 [2; 2; 8; 2; 5; 8; 4; 4] 3
           (1, -5) 3 [[2; 2; 8; 2; 5; 8; 5; 0]] [3] [(0, 0, 0, 255)] 16065);
    try reflexivity; try lia; vm_compute; reflexivity.
Defined.


Section LoopInvariants.

Variable covers : list Z → Z → Z → bool.
Variable thumbnail : Z → Z → raster → raster.
Variables (n_shapes : nat) (min_points max_points width height : Z) (internal : raster).

Lemma iterate_keeps_coherent (st st' : state) (d : draw) :
  coherent covers thumbnail width height internal st →
  iterate covers thumbnail min_points max_points width height internal st d = Some st' →
  coherent covers thumbnail width height internal st'.
Proof.
  destruct st as [[[[shapes points] colors] image] score]. intros Hst. unfold iterate.
  destruct (changes _ _ _ _ _ _ _ d) as [[[s n] c] |]; [| discriminate].
  cbn [mbind option_bind].
  destruct (error_abs internal _) as [new_score |] eqn:E; [| discriminate].
  cbn [mbind option_bind].
  destruct (new_score <=? score); intros [= <-]; [| exact Hst].
  split; [reflexivity | exact E].
Qed.

(** X7: the loop keeps its state coherent: after any number of
    iterations, ended by the interrupt or by an exception, the raster it
    holds is the render of the polygon set it holds and the score is the
    absolute error of that raster against the target. *)
Theorem run_keeps_coherent (draws : list draw) (st : state) :
  coherent covers thumbnail width height internal st →
  coherent covers thumbnail width height internal
           (run covers thumbnail min_points max_points width height internal draws st).
Proof.
  revert st. induction draws as [| d draws IH]; intros st Hst; [exact Hst |].
  cbn [run]. destruct (iterate _ _ _ _ _ _ _ st d) as [st' |] eqn:E; [| exact Hst].
  apply IH. apply (iterate_keeps_coherent st st' d Hst E).
Qed.

Lemma error_abs_defined (a b : raster) (h w : nat) :
  has_shape h w a → has_shape h w b → ∃ e, error_abs a b = Some e.
Proof.
  intros Ha Hb. unfold error_abs.
  rewrite (has_shape_lengths _ _ _ Ha), (has_shape_lengths _ _ _ Hb).
  destruct (decide _) as [_ | Hne]; [| contradiction]. eexists. reflexivity.
Qed.

(** X8: with at least 3 sides ([3 <= min_points < max_points]), a canvas
    of at least one pixel and a target of the canvas's shape, one iteration
    on a polygon set that satisfies the invariant never raises, whatever
    the generator draws, and the polygon set it returns satisfies the
    invariant. *)
Theorem iterate_never_raises
    (shapes : list (list Z)) (points : list Z) (colors : list rgba)
    (image : raster) (score : Z) (d : draw) :
  3 ≤ min_points → min_points < max_points → 1 ≤ width → 1 ≤ height →
  has_shape (Z.to_nat height) (Z.to_nat width) internal →
  clamped n_shapes min_points max_points width height (shapes, points, colors) →
  drawn n_shapes max_points width height points d = true →
  ∃ shapes' points' colors' image' score',
    iterate covers thumbnail min_points max_points width height internal
            (shapes, points, colors, image, score) d
      = Some (shapes', points', colors', image', score') ∧
    clamped n_shapes min_points max_points width height (shapes', points', colors') ∧
    score' ≤ score.
Proof.
  intros Hmin Hlt Hw Hh Hinternal Hclamped Hdrawn.
  destruct (changes_keeps_clamped n_shapes min_points max_points width height
              Hlt ltac:(lia) ltac:(lia) ltac:(lia) shapes points colors d Hclamped Hdrawn)
    as ([[s n] c] & Hcand & Hclamped').
  destruct (draw_image_raster covers thumbnail width height s n c) as [Hshape _].
  destruct (error_abs_defined _ _ _ _ Hinternal Hshape) as [e He].
  rewrite (iterate_candidate covers thumbnail min_points max_points width height internal
             shapes points colors image score d s n c e Hcand He).
  destruct (Z.leb_spec e score).
  - exists s, n, c. do 2 eexists. split; [reflexivity |]. split; [exact Hclamped' | lia].
  - exists shapes, points, colors. do 2 eexists.
    split; [reflexivity |]. split; [exact Hclamped | lia].
Qed.

(** X9: [generate] starts: with at least 3 sides
    ([3 <= min_points <= max_points]), a canvas of at least one pixel and
    a target of the canvas's shape, [initialize] returns a polygon set
    that satisfies the invariant, and the first render and score are
    computed without an exception, giving a coherent state. *)
Theorem generate_starts (xs ys : list (list Z)) (cs : list rgba) :
  3 ≤ min_points → min_points ≤ max_points → 1 ≤ width → 1 ≤ height →
  has_shape (Z.to_nat height) (Z.to_nat width) internal →
  randint_array width n_shapes (Z.to_nat max_points) xs = true →
  randint_array height n_shapes (Z.to_nat max_points) ys = true →
  randint_colors n_shapes cs = true →
  ∃ p st,
    initialize n_shapes min_points max_points width height xs ys cs = Some p ∧
    clamped n_shapes min_points max_points width height p ∧
    start covers thumbnail width height internal p = Some st ∧
    st.1.1 = p ∧
    coherent covers thumbnail width height internal st.
Proof.
  intros Hmin Hle Hw Hh Hinternal Hxs Hys Hcs.
  assert (∃ p, initialize n_shapes min_points max_points width height xs ys cs = Some p)
    as [p Hp].
  { unfold initialize.
    replace (0 <=? max_points) with true by (symmetry; apply Z.leb_le; lia).
    replace (0 <? width) with true by (symmetry; apply Z.ltb_lt; lia).
    replace (0 <? height) with true by (symmetry; apply Z.ltb_lt; lia).
    eexists. reflexivity. }
  pose proof (initialize_clamped _ _ _ _ _ _ _ _ _ Hle Hxs Hys Hcs Hp) as Hclamped.
  destruct p as [[s n] c].
  destruct (draw_image_raster covers thumbnail width height s n c) as [Hshape _].
  destruct (error_abs_defined _ _ _ _ Hinternal Hshape) as [e He].
  exists (s, n, c). eexists. split; [exact Hp |]. split; [exact Hclamped |].
  split; [unfold start; rewrite He; reflexivity |].
  split; [reflexivity |]. split; [reflexivity | exact He].
Qed.

End LoopInvariants.

Lemma run_keeps_coherent_witness :
  coherent even_odd keep_size 10 10 (new_image 10 10)
    (run even_odd keep_size 3 4 10 10 (new_image 10 10)
         [{| index := 0; func := Point (1, -5) 3 |};
          {| index := 0; func := Number 1 |};
          {| index := 0; func := Color (56, 0, 100) |}]
         ([[2; 2; 8; 2; 5; 8; 4; 4]], [3], [(0, 0, 0, 255)],
          draw_image even_odd keep_size 10 10 [[2; 2; 8; 2; 5; 8; 4; 4]] [3]
                     [(0, 0, 0, 255)] false, 16065)).
Proof.
  apply (run_keeps_coherent even_odd keep_size 3 4 10 10 (new_image 10 10)).
  split; [reflexivity | vm_compute; reflexivity].
Defined.

Lemma iterate_never_raises_witness :
  ∃ shapes' points' colors' image' score',
    iterate even_odd keep_size 3 4 10 10 (new_image 10 10)
            ([[2; 2; 8; 2; 5; 8; 4; 4]], [3], [(0, 0, 0, 255)], new_image 10 10, 16065)
            {| index := 0; func := Order [2; 0; 1]%nat |}
      = Some (shapes', points', colors', image', score') ∧
    clamped 1 3 4 10 10 (shapes', points', colors') ∧
    score' ≤ 16065.
Proof.
  apply (iterate_never_raises even_odd keep_size 1 3 4 10 10 (new_image 10 10)
           [[2; 2; 8; 2; 5; 8; 4; 4]] [3] [(0, 0, 0, 255)] (new_image 10 10) 16065
           {| index := 0; func := Order [2; 0; 1]%nat |}); try lia.
  - apply new_image_shape.
  - repeat split; try reflexivity.
    + constructor; [| constructor]. split; [reflexivity |].
      intros i v Hi.
      do 8 (destruct i as [| i]; [injection Hi as <-; cbn; lia |]). discriminate.
    + repeat constructor; lia.
    + repeat constructor; cbn; lia.
  - vm_compute. reflexivity.
Defined.

Lemma generate_starts_witness :
  ∃ p st,
    initialize 2 3 4 10 8 [[0; 9; 5; 3]; [1; 2; 3; 4]] [[7; 0; 2; 6]; [5; 5; 5; 5]]
               [(0, 255, 7, 100); (1, 2, 3, 4)] = Some p ∧
    clamped 2 3 4 10 8 p ∧
    start even_odd keep_size 10 8 (new_image 10 8) p = Some st ∧
    st.1.1 = p ∧
    coherent even_odd keep_size 10 8 (new_image 10 8) st.
Proof.
  apply (generate_starts even_odd keep_size 2 3 4 10 8 (new_image 10 8));
    try lia; try reflexivity.
  apply new_image_shape.
Defined.

(** * Further properties of [order] *)

(** X11: [order] with the identity permutation returns the polygon set
    unchanged. *)
Theorem order_identity_permutation
    (shapes : list (list Z)) (points : list Z) (colors : list rgba)
    (index : nat) (n : Z) (row : list Z) :
  points !! index = Some n → 0 ≤ n →
  shapes !! index = Some row →
  (Z.to_nat n * 2 ≤ length row)%nat →
  order shapes points colors index (seq 0 (Z.to_nat n)) = Some (shapes, points, colors).
Proof.
  intros Hn Hpos Hrow Hlen.
  destruct (row_split row (Z.to_nat n) Hlen) as (xs & ys & inert & Hx & Hy & ->).
  rewrite (order_row shapes points colors index _ n xs ys inert Hn Hpos Hrow Hx Hy)
    by reflexivity.
  rewrite <- Hx at 1. rewrite <- Hy. rewrite !lookup_all_seq.
  rewrite list_insert_id by exact Hrow. reflexivity.
Qed.

Lemma order_identity_permutation_witness :
  order [[2; 2; 8; 2; 5; 8; 4; 4]] [3] [(9, 9, 9, 9)] 0 (seq 0 (Z.to_nat 3))
  = Some ([[2; 2; 8; 2; 5; 8; 4; 4]], [3], [(9, 9, 9, 9)]).
Proof.
  apply (order_identity_permutation _ _ _ 0%nat 3 [2; 2; 8; 2; 5; 8; 4; 4]);
    [reflexivity | lia | reflexivity | cbn; lia].
Defined.

Lemma fancy_twice (l : list Z) (shuffle shuffle' : list nat) :
  Forall (λ k, (k < length shuffle)%nat) shuffle' →
  (λ k, default 0 (((λ s, default 0 (l !! s)) <$> shuffle) !! k)) <$> shuffle'
  = (λ s, default 0 (l !! s)) <$> ((λ k, default 0%nat (shuffle !! k)) <$> shuffle').
Proof.
  intros H. induction H as [| k shuffle' Hk _ IH]; [reflexivity |].
  cbn [fmap list_fmap]. f_equal; [| exact IH].
  rewrite list_lookup_fmap.
  destruct (lookup_lt_is_Some_2 shuffle k Hk) as [s ->]. reflexivity.
Qed.

(** X12: two [order] proposals in a row on the same polygon are one
    [order] with the composed permutation: the second shuffle indexes the
    first. *)
Theorem order_composes
    (shapes : list (list Z)) (points : list Z) (colors : list rgba)
    (index : nat) (shuffle shuffle' : list nat) (n : Z) (row : list Z) :
  points !! index = Some n → 0 ≤ n →
  shapes !! index = Some row →
  (Z.to_nat n * 2 ≤ length row)%nat →
  shuffle ≡ₚ seq 0 (Z.to_nat n) → shuffle' ≡ₚ seq 0 (Z.to_nat n) →
  ∃ shapes1,
    order shapes points colors index shuffle = Some (shapes1, points, colors) ∧
    order shapes1 points colors index shuffle'
    = order shapes points colors index ((λ k, default 0%nat (shuffle !! k)) <$> shuffle') ∧
    (λ k, default 0%nat (shuffle !! k)) <$> shuffle' ≡ₚ seq 0 (Z.to_nat n).
Proof.
  intros Hn Hpos Hrow Hlen Hperm Hperm'.
  destruct (row_split row (Z.to_nat n) Hlen) as (xs & ys & inert & Hx & Hy & ->).
  assert (length shuffle = Z.to_nat n) as Hs by (rewrite Hperm, length_seq; reflexivity).
  assert ((λ k, default 0%nat (shuffle !! k)) <$> shuffle' ≡ₚ seq 0 (Z.to_nat n)) as Hcomp.
  { rewrite Hperm'. rewrite <- Hs. rewrite lookup_all_seq. rewrite Hs. exact Hperm. }
  eexists. split; [apply (order_row _ _ _ _ _ n xs ys inert); assumption |].
  split; [| exact Hcomp].
  rewrite (order_row _ points colors index shuffle' n
             ((λ s, default 0 (xs !! s)) <$> shuffle)
             ((λ s, default 0 (ys !! s)) <$> shuffle) inert);
    try assumption;
    [| apply list_lookup_insert_eq; apply lookup_lt_Some in Hrow; exact Hrow
     | rewrite length_fmap; exact Hs | rewrite length_fmap; exact Hs].
  rewrite (order_row shapes points colors index _ n xs ys inert) by assumption.
  rewrite list_insert_insert_eq.
  assert (Forall (λ k, (k < length shuffle)%nat) shuffle') as Hrange
    by (rewrite Hs; apply shuffle_in_range; exact Hperm').
  rewrite !fancy_twice by exact Hrange. reflexivity.
Qed.

Lemma order_composes_witness :
  ∃ shapes1,
    order [[2; 2; 8; 2; 5; 8; 4; 4]] [3] [(9, 9, 9, 9)] 0 [2; 0; 1]%nat
      = Some (shapes1, [3], [(9, 9, 9, 9)]) ∧
    order shapes1 [3] [(9, 9, 9, 9)] 0 [1; 0; 2]%nat
    = order [[2; 2; 8; 2; 5; 8; 4; 4]] [3] [(9, 9, 9, 9)] 0
            ((λ k, default 0%nat ([2; 0; 1]%nat !! k)) <$> [1; 0; 2]%nat) ∧
    (λ k, default 0%nat ([2; 0; 1]%nat !! k)) <$> [1; 0; 2]%nat ≡ₚ seq 0 (Z.to_nat 3).
Proof.
  apply (order_composes [[2; 2; 8; 2; 5; 8; 4; 4]] [3] [(9, 9, 9, 9)] 0
           [2; 0; 1]%nat [1; 0; 2]%nat 3 [2; 2; 8; 2; 5; 8; 4; 4]);
    try reflexivity; try lia; try (cbn; lia);
    apply (bool_decide_unpack _); vm_compute; exact I.
Defined.


Lemma reachable_clamped_witness :
  clamped 1 3 4 10 10 ([[2; 2; 8; 2; 5; 8; 10; 0]], [4], [(0, 7, 5, 255)]).
Proof.
  apply reachable_clamped; try lia.
  apply (reachable_changes 1 3 4 10 10 [[2; 2; 8; 2; 5; 8; 10; 0]] [4] [(200, 7, 5, 255)]
           {| index := 0; func := Color (56, 0, 0) |}); [| reflexivity | reflexivity].
  apply (reachable_changes 1 3 4 10 10 [[2; 2; 8; 2; 5; 8; 10; 0]] [3] [(200, 7, 5, 255)]
           {| index := 0; func := Number (-1) |}); [| reflexivity | reflexivity].
  apply (reachable_changes 1 3 4 10 10 [[2; 2; 8; 2; 5; 8; 9; 5]] [3] [(200, 7, 5, 255)]
           {| index := 0; func := Point (5, -5) 3 |});
    [| vm_compute; reflexivity | reflexivity].
  apply (reachable_initial 1 3 4 10 10 [[2; 8; 5; 9]] [[2; 2; 8; 5]] [(200, 7, 5, 255)]);
    reflexivity.
Defined.

(** * Further properties of the loop and of the renders *)

Section LoopEnd.

Variable covers : list Z → Z → Z → bool.
Variable thumbnail : Z → Z → raster → raster.
Variables (min_points max_points width height : Z) (internal : raster).

(** X13: an exception in an iteration ends the search: the draws after it
    are not executed and the state is the one accepted before it. *)
Theorem run_stops_at_exception (draws rest : list draw) (d : draw) (st : state) :
  iterate covers thumbnail min_points max_points width height internal
          (run covers thumbnail min_points max_points width height internal draws st) d
    = None →
  run covers thumbnail min_points max_points width height internal
      (draws ++ d :: rest) st
  = run covers thumbnail min_points max_points width height internal draws st.
Proof.
  revert st. induction draws as [| d0 draws IH]; intros st H.
  - cbn in *. rewrite H. reflexivity.
  - cbn [app run] in *.
    destruct (iterate _ _ _ _ _ _ _ st d0) as [st1 |]; [apply IH; exact H | reflexivity].
Qed.

(** X14: on a canvas of at least one pixel, the render without
    antialiasing of a polygon set that satisfies the invariant with at
    least 3 sides has [height] rows of [width] pixels with channels in
    [[0, 255]]: its [shape[0]] is [height] and its [shape[1]] is [width]. *)
Theorem render_has_canvas_shape (n_shapes : nat)
    (shapes : list (list Z)) (points : list Z) (colors : list rgba) :
  1 ≤ width → 1 ≤ height → 3 ≤ min_points →
  clamped n_shapes min_points max_points width height (shapes, points, colors) →
  has_shape (Z.to_nat height) (Z.to_nat width)
            (draw_image covers thumbnail width height shapes points colors false) ∧
  byte_raster (draw_image covers thumbnail width height shapes points colors false) ∧
  shape0 (draw_image covers thumbnail width height shapes points colors false) = height ∧
  shape1 (draw_image covers thumbnail width height shapes points colors false) = width.
Proof.
  intros Hw Hh _ _.
  destruct (draw_image_raster covers thumbnail width height shapes points colors)
    as [Hshape Hbytes].
  split; [exact Hshape |]. split; [exact Hbytes |].
  destruct Hshape as [Hrows Hcols]. unfold shape0, shape1. split; [lia |].
  destruct (draw_image covers thumbnail width height shapes points colors false)
    as [| row image]; [cbn in Hrows; lia |].
  apply Forall_cons in Hcols as [Hrow _]. cbn. rewrite Hrow. lia.
Qed.

End LoopEnd.

Lemma run_stops_at_exception_witness :
  run even_odd keep_size 3 3 10 10 (new_image 10 10)
      ([{| index := 0; func := Number 1 |}]
       ++ {| index := 0; func := Order [3; 1; 0; 2]%nat |}
       :: [{| index := 0; func := Color (1, 1, 1) |}])
      ([[2; 2; 8; 2; 5; 8]], [3], [(0, 0, 0, 255)],
       draw_image even_odd keep_size 10 10 [[2; 2; 8; 2; 5; 8]] [3] [(0, 0, 0, 255)] false,
       16065)
  = run even_odd keep_size 3 3 10 10 (new_image 10 10)
        [{| index := 0; func := Number 1 |}]
        ([[2; 2; 8; 2; 5; 8]], [3], [(0, 0, 0, 255)],
         draw_image even_odd keep_size 10 10 [[2; 2; 8; 2; 5; 8]] [3] [(0, 0, 0, 255)] false,
         16065).
Proof.
  apply (run_stops_at_exception even_odd keep_size 3 3 10 10 (new_image 10 10)).
  vm_compute. reflexivity.
Defined.

(** * Further properties of [number] and of the percentage *)

(** X15: whatever the two bounds are, [number] moves the side count by
    exactly one and never takes a count that is at least [min_points]
    below [min_points]; the count passes [max_points] only from
    [min_points = max_points]. *)
Theorem number_keeps_lower_bound (min_points max_points : Z)
    (shapes : list (list Z)) (points : list Z) (colors : list rgba)
    (index : nat) (n choice : Z) :
  points !! index = Some n →
  min_points ≤ n →
  choice = 1 ∨ choice = -1 →
  ∃ n', number min_points max_points shapes points colors index choice
          = Some (shapes, <[index := n']> points, colors)
      ∧ (n' = n + 1 ∨ n' = n - 1)
      ∧ min_points ≤ n'
      ∧ (n ≤ max_points → max_points < n' → n = min_points ∧ min_points = max_points).
Proof.
  intros Hn Hmin Hchoice. eexists.
  split; [apply (number_result _ _ _ _ _ _ _ _ Hn) |].
  destruct (Z.eqb_spec n min_points); [lia |].
  destruct (Z.eqb_spec n max_points); lia.
Qed.

Lemma number_keeps_lower_bound_witness :
  ∃ n', number 3 3 [[2; 2; 8; 2; 5; 8]] [4] [(9, 9, 9, 9)] 0 (-1)
          = Some ([[2; 2; 8; 2; 5; 8]], <[0%nat := n']> [4], [(9, 9, 9, 9)])
      ∧ (n' = 4 + 1 ∨ n' = 4 - 1)
      ∧ 3 ≤ n'
      ∧ (4 ≤ 3 → 3 < n' → 4 = 3 ∧ 3 = 3).
Proof.
  apply (number_keeps_lower_bound 3 3 [[2; 2; 8; 2; 5; 8]] [4] [(9, 9, 9, 9)] 0 4 (-1));
    [reflexivity | lia | lia].
Defined.

Lemma mjoin_replicate {A} (h w : nat) (x : A) :
  mjoin (replicate h (replicate w x)) = replicate (h * w) x.
Proof.
  induction h as [| h IH]; [reflexivity |].
  cbn [replicate mjoin list_join Nat.mul]. rewrite replicate_add. f_equal. exact IH.
Qed.

Lemma sum_abs_white_black (n : nat) :
  sum (map (λ d, int32 (Z.abs (int32 d)))
           (mjoin (zip_with (λ p q : pixel, [p.1.1 - q.1.1; p.1.2 - q.1.2; p.2 - q.2])
                            (replicate n white) (replicate n (0, 0, 0)))))
  = 765 * Z.of_nat n.
Proof.
  induction n as [| n IH]; [reflexivity |].
  rewrite Nat2Z.inj_succ. cbn -[int32 Z.abs Z.sub Z.mul Z.of_nat].
  change (int32 (Z.abs (int32 (255 - 0)))) with 255.
  unfold sum in IH. set (t := foldr Z.add 0 _) in *. lia.
Qed.

(** X16: the bound 100 is attained: an all-white raster against an
    all-black one of the same shape has absolute error [765 * h * w], which
    [error_percent] maps to 100. *)
Theorem error_percent_maximum (h w : nat) :
  (0 < h)%nat → (0 < w)%nat → 765 * Z.of_nat h * Z.of_nat w < 2 ^ 63 →
  error_abs (replicate h (replicate w white)) (replicate h (replicate w (0, 0, 0)))
    = Some (765 * Z.of_nat h * Z.of_nat w) ∧
  (error_percent (765 * Z.of_nat h * Z.of_nat w) (replicate h (replicate w white))
   == 100)%Q.
Proof.
  intros Hh Hw Hsize. split.
  - unfold error_abs. rewrite !fmap_replicate, !length_replicate.
    destruct (decide _) as [_ | Hne]; [| contradiction].
    unfold subtract. rewrite !mjoin_replicate, sum_abs_white_black.
    change (2 ^ 63) with 9223372036854775808 in Hsize.
    rewrite int64_small by lia. f_equal. lia.
  - unfold error_percent, shape0, shape1. rewrite length_replicate.
    destruct h as [| h]; [lia |]. cbn [replicate head default].
    unfold id. rewrite length_replicate.
    set (d := Z.of_nat (S h) * Z.of_nat w * 255 * 3).
    replace (765 * Z.of_nat (S h) * Z.of_nat w) with d by (unfold d; lia).
    assert (0 < d) as Hd by (unfold d; lia).
    unfold Qeq, Qdiv, Qmult, Qinv, inject_Z. cbn [Qnum Qden].
    destruct d as [| d | d]; try lia. cbn [Qnum Qden]. lia.
Qed.

Lemma error_percent_maximum_witness :
  error_abs (replicate 2 (replicate 3 white)) (replicate 2 (replicate 3 (0, 0, 0)))
    = Some (765 * Z.of_nat 2 * Z.of_nat 3) ∧
  (error_percent (765 * Z.of_nat 2 * Z.of_nat 3) (replicate 2 (replicate 3 white))
   == 100)%Q.
Proof. apply (error_percent_maximum 2 3); [lia | lia | reflexivity]. Defined.

Lemma render_has_canvas_shape_witness :
  has_shape (Z.to_nat 10) (Z.to_nat 10)
            (draw_image even_odd keep_size 10 10 [[2; 2; 8; 2; 5; 8; 4; 4]] [3]
                        [(0, 0, 0, 255)] false) ∧
  byte_raster (draw_image even_odd keep_size 10 10 [[2; 2; 8; 2; 5; 8; 4; 4]] [3]
                          [(0, 0, 0, 255)] false) ∧
  shape0 (draw_image even_odd keep_size 10 10 [[2; 2; 8; 2; 5; 8; 4; 4]] [3]
                     [(0, 0, 0, 255)] false) = 10 ∧
  shape1 (draw_image even_odd keep_size 10 10 [[2; 2; 8; 2; 5; 8; 4; 4]] [3]
                     [(0, 0, 0, 255)] false) = 10.
Proof.
  apply (render_has_canvas_shape even_odd keep_size 3 4 10 10 1); try lia.
  repeat split; try reflexivity.
  - constructor; [| constructor]. split; [reflexivity |].
    intros i v Hi.
    do 8 (destruct i as [| i]; [injection Hi as <-; cbn; lia |]). discriminate.
  - repeat constructor; lia.
  - repeat constructor; cbn; lia.
Defined.
